(** * OpenImageIO [imagebufalgo_util.h]: region splitting and type dispatch

    A shallow embedding of the header [src/include/OpenImageIO/imagebufalgo_util.h]:
    the [parallel_image] template (splitting a region of interest into bands
    and handing them to worker threads), the [type_merge] overloads, the
    preparation entry point [IBAprep], and the [OIIO_DISPATCH_*] macros. *)

From Stdlib Require Import ZArith List Bool Lia String.
Import ListNotations.
Local Open Scope Z_scope.

(** ** C++ [int] arithmetic

    An [int] is a 32-bit two's-complement integer.  Values are kept in [Z];
    every arithmetic operation of the source is followed by the wrap-around
    [to_int] that a 32-bit register performs. *)

Module Int.

Definition INT_MIN : Z := - 2 ^ 31.
Definition INT_MAX : Z := 2 ^ 31 - 1.

Definition in_range (z : Z) : Prop := INT_MIN <= z <= INT_MAX.

(** Reduction of an integer to the [int] it is stored as; also the
    conversion [int(e)] of a wider value. *)
Definition to_int (z : Z) : Z := (z + 2 ^ 31) mod 2 ^ 32 - 2 ^ 31.

Definition add (a b : Z) : Z := to_int (a + b).
Definition sub (a b : Z) : Z := to_int (a - b).
Definition mul (a b : Z) : Z := to_int (a * b).
(** C++ division truncates towards zero. *)
Definition div (a b : Z) : Z := to_int (Z.quot a b).

End Int.

(** ** Region of interest *)

(** Modelled from the spec: the [ROI] struct is declared in another header
    of the library.  It has six integer bounds (begin/end per axis, end
    exclusive) and a channel range; width, height and depth are the
    extents, and the pixel count is the product of the spatial extents. *)

Record ROI : Type := mkROI {
  xbegin : Z; xend : Z;
  ybegin : Z; yend : Z;
  zbegin : Z; zend : Z;
  chbegin : Z; chend : Z
}.

Definition set_xbegin (r : ROI) (v : Z) : ROI :=
  mkROI v (xend r) (ybegin r) (yend r) (zbegin r) (zend r) (chbegin r) (chend r).
Definition set_xend (r : ROI) (v : Z) : ROI :=
  mkROI (xbegin r) v (ybegin r) (yend r) (zbegin r) (zend r) (chbegin r) (chend r).
Definition set_ybegin (r : ROI) (v : Z) : ROI :=
  mkROI (xbegin r) (xend r) v (yend r) (zbegin r) (zend r) (chbegin r) (chend r).
Definition set_yend (r : ROI) (v : Z) : ROI :=
  mkROI (xbegin r) (xend r) (ybegin r) v (zbegin r) (zend r) (chbegin r) (chend r).
Definition set_zbegin (r : ROI) (v : Z) : ROI :=
  mkROI (xbegin r) (xend r) (ybegin r) (yend r) v (zend r) (chbegin r) (chend r).
Definition set_zend (r : ROI) (v : Z) : ROI :=
  mkROI (xbegin r) (xend r) (ybegin r) (yend r) (zbegin r) v (chbegin r) (chend r).

Definition width (r : ROI) : Z := Int.sub (xend r) (xbegin r).
Definition height (r : ROI) : Z := Int.sub (yend r) (ybegin r).
Definition depth (r : ROI) : Z := Int.sub (zend r) (zbegin r).
Definition nchannels (r : ROI) : Z := Int.sub (chend r) (chbegin r).
Definition npixels (r : ROI) : Z := width r * height r * depth r.

(** ** [parallel_image] *)

Inductive SplitDir : Type := Split_X | Split_Y | Split_Z | Split_Biggest.

(** The enumerators' values, [int(splitdir)]. *)
Definition SplitDir_to_int (d : SplitDir) : Z :=
  match d with Split_X => 0 | Split_Y => 1 | Split_Z => 2 | Split_Biggest => 3 end.

(** What [parallel_image] does with the callable [f]: it hands a region to
    a new thread of the thread group, calls [f] itself, or joins the
    group. *)
Inductive event : Type :=
| Spawn (r : ROI)      (* threads.add_thread (new OIIO::thread (f, roi)) *)
| Call (r : ROI)       (* f (roi) *)
| JoinAll.             (* threads.join_all () *)

(** The state of the function when it returns: the final value of the
    local variable [nthreads] and the events in program order. *)
Record run : Type := mkRun {
  nthreads_used : Z;
  events : list event
}.

Definition default_nthreads : Z := 0.
Definition default_splitdir : SplitDir := Split_Y.

Module ParallelImage.

Import Int.

(** Lines 95-96: [threads <= 0] means the "threads" attribute, whose value
    [threads_attr] is read from the library's global state. *)
Definition resolve_nthreads (threads_attr nthreads : Z) : Z :=
  if nthreads <=? 0 then threads_attr else nthreads.

(** Line 99. *)
Definition cap_by_pixels (nthreads : Z) (roi : ROI) : Z :=
  Z.min nthreads (add 1 (to_int (npixels roi / 16384))).

(** Lines 107-108. *)
Definition resolve_splitdir (roi : ROI) (splitdir : SplitDir) : SplitDir :=
  if SplitDir_to_int splitdir >=? SplitDir_to_int Split_Biggest
  then (if width roi >? height roi then Split_X else Split_Y)
  else splitdir.

(** Lines 109-112: [minmax[2*int(splitdir)]] and [minmax[2*int(splitdir)+1]]. *)
Definition minmax (roi : ROI) : list Z :=
  [xbegin roi; xend roi; ybegin roi; yend roi; zbegin roi; zend roi].

Definition roi_begin (roi : ROI) (splitdir : SplitDir) : Z :=
  nth (Z.to_nat (2 * SplitDir_to_int splitdir)) (minmax roi) 0.
Definition roi_end (roi : ROI) (splitdir : SplitDir) : Z :=
  nth (Z.to_nat (2 * SplitDir_to_int splitdir + 1)) (minmax roi) 0.

(** Lines 120-135: the band of iteration [i], written into [roi]; [None]
    is the [break]. *)
Definition next_band (splitdir : SplitDir) (rbegin rend blocksize i : Z)
    (roi : ROI) : option ROI :=
  match splitdir with
  | Split_Y =>
      let roi := set_ybegin roi (add rbegin (mul i blocksize)) in
      let roi := set_yend roi (Z.min (add (ybegin roi) blocksize) rend) in
      if ybegin roi >=? yend roi then None else Some roi
  | Split_X =>
      let roi := set_xbegin roi (add rbegin (mul i blocksize)) in
      let roi := set_xend roi (Z.min (add (xbegin roi) blocksize) rend) in
      if xbegin roi >=? xend roi then None else Some roi
  | _ =>
      let roi := set_zbegin roi (add rbegin (mul i blocksize)) in
      let roi := set_zend roi (Z.min (add (zbegin roi) blocksize) rend) in
      if zbegin roi >=? zend roi then None else Some roi
  end.

(** Lines 119-140: the loop [for (int i = 0; i < nthreads; i++)], over the
    values [i] still to be visited. *)
Fixpoint band_loop (splitdir : SplitDir) (rbegin rend blocksize nthreads : Z)
    (idx : list Z) (roi : ROI) : list event :=
  match idx with
  | [] => []
  | i :: idx' =>
      match next_band splitdir rbegin rend blocksize i roi with
      | None => []
      | Some roi' =>
          (if i <? sub nthreads 1 then Spawn roi' else Call roi')
            :: band_loop splitdir rbegin rend blocksize nthreads idx' roi'
      end
  end.

(** The values [0, 1, ..., n-1] of the loop counter. *)
Definition counter_values (n : Z) : list Z :=
  map Z.of_nat (seq 0 (Z.to_nat n)).

Definition parallel_image (threads_attr : Z) (roi : ROI) (nthreads : Z)
    (splitdir : SplitDir) : run :=
  let nthreads := resolve_nthreads threads_attr nthreads in
  let nthreads := cap_by_pixels nthreads roi in
  if nthreads <=? 1 then mkRun nthreads [Call roi]
  else
    let splitdir := resolve_splitdir roi splitdir in
    let rbegin := roi_begin roi splitdir in
    let rend := roi_end roi splitdir in
    let splitlen := sub rend rbegin in
    let nthreads := Z.min nthreads splitlen in
    let blocksize := Z.max 1 (div (sub (add splitlen nthreads) 1) nthreads) in
    mkRun nthreads
      (band_loop splitdir rbegin rend blocksize nthreads
                 (counter_values nthreads) roi ++ [JoinAll]).

(** The regions the callable is applied to, in program order, and the
    regions given to new threads. *)
Definition invocations (es : list event) : list ROI :=
  flat_map (fun e => match e with Spawn r | Call r => [r] | JoinAll => [] end) es.
Definition spawned (es : list event) : list ROI :=
  flat_map (fun e => match e with Spawn r => [r] | _ => [] end) es.
Definition called (es : list event) : list ROI :=
  flat_map (fun e => match e with Call r => [r] | _ => [] end) es.

End ParallelImage.

Import ParallelImage.

(** ** Geometry used to state the properties of the bands *)

Definition axis_begin (d : SplitDir) (r : ROI) : Z :=
  match d with Split_X => xbegin r | Split_Y => ybegin r | _ => zbegin r end.
Definition axis_end (d : SplitDir) (r : ROI) : Z :=
  match d with Split_X => xend r | Split_Y => yend r | _ => zend r end.

(** [r] with the bounds of axis [d] replaced by [b] and [e]. *)
Definition set_axis (d : SplitDir) (r : ROI) (b e : Z) : ROI :=
  match d with
  | Split_X => set_xend (set_xbegin r b) e
  | Split_Y => set_yend (set_ybegin r b) e
  | _ => set_zend (set_zbegin r b) e
  end.

(** The pixel [(x, y, z)] lies in the region. *)
Definition contains (r : ROI) (x y z : Z) : bool :=
  (xbegin r <=? x) && (x <? xend r) &&
  (ybegin r <=? y) && (y <? yend r) &&
  (zbegin r <=? z) && (z <? zend r).

(** The coordinate of a pixel along axis [d]. *)
Definition coord (d : SplitDir) (x y z : Z) : Z :=
  match d with Split_X => x | Split_Y => y | _ => z end.

(** Membership in [r] as far as the axes other than [d] go. *)
Definition contains_off_axis (d : SplitDir) (r : ROI) (x y z : Z) : bool :=
  match d with
  | Split_X => (ybegin r <=? y) && (y <? yend r) && (zbegin r <=? z) && (z <? zend r)
  | Split_Y => (xbegin r <=? x) && (x <? xend r) && (zbegin r <=? z) && (z <? zend r)
  | _ => (xbegin r <=? x) && (x <? xend r) && (ybegin r <=? y) && (y <? yend r)
  end.

(** Bounds [b <= e] of one axis for which no [int] computation of
    [parallel_image] on that axis overflows: the extent, twice the extent
    (the rounding [splitlen + nthreads - 1]) and the end of the band after
    the last one ([roi_end] plus at most one extent) are representable. *)
Definition axis_fits (b e : Z) : Prop :=
  Int.INT_MIN <= b /\ b <= e /\
  2 * (e - b) <= Int.INT_MAX /\ e + (e - b) <= Int.INT_MAX.

Definition roi_fits (r : ROI) : Prop :=
  axis_fits (xbegin r) (xend r) /\
  axis_fits (ybegin r) (yend r) /\
  axis_fits (zbegin r) (zend r).

(** The spec's empty region: begin = end on some axis. *)
Definition roi_empty (r : ROI) : Prop :=
  xbegin r = xend r \/ ybegin r = yend r \/ zbegin r = zend r.

Definition roi_nonempty (r : ROI) : Prop :=
  xbegin r < xend r /\ ybegin r < yend r /\ zbegin r < zend r.

(** [bands] are consecutive, non-empty intervals of axis [d] from [lo] to
    [hi], each a copy of [r0] on everything else. *)
Fixpoint tiles (d : SplitDir) (r0 : ROI) (lo hi : Z) (bands : list ROI) : Prop :=
  match bands with
  | [] => lo = hi
  | b :: bands' =>
      exists mid, lo < mid <= hi /\ b = set_axis d r0 lo mid /\
                  tiles d r0 mid hi bands'
  end.

(** ** Type descriptors *)

(** Modelled from the spec: [TypeDesc] and its enumeration [BASETYPE] are
    declared in another header of the library.  The header under study
    names nine of the tags in its dispatch macros; the other enumerators
    are tags for which no specialization exists. *)

Inductive BASETYPE : Type :=
| UNKNOWN | NONE
| UINT8 | INT8 | UINT16 | INT16 | UINT | INT | UINT64 | INT64
| HALF | FLOAT | DOUBLE
| STRING | PTR.

Record TypeDesc : Type := mkTypeDesc { basetype : BASETYPE }.

Definition BASETYPE_eqb (a b : BASETYPE) : bool :=
  match a, b with
  | UNKNOWN, UNKNOWN | NONE, NONE | UINT8, UINT8 | INT8, INT8
  | UINT16, UINT16 | INT16, INT16 | UINT, UINT | INT, INT
  | UINT64, UINT64 | INT64, INT64 | HALF, HALF | FLOAT, FLOAT
  | DOUBLE, DOUBLE | STRING, STRING | PTR, PTR => true
  | _, _ => false
  end.

(** The tags with a specialization in exhaustive dispatch
    ([OIIO_DISPATCH_TYPES]) and in common-type dispatch
    ([OIIO_DISPATCH_COMMON_TYPES]). *)
Definition supported_types : list BASETYPE :=
  [FLOAT; UINT8; HALF; UINT16; INT8; INT16; UINT; INT; DOUBLE].
Definition common_types : list BASETYPE := [FLOAT; UINT8; HALF; UINT16].

Definition is_supported (t : BASETYPE) : bool :=
  existsb (BASETYPE_eqb t) supported_types.
Definition is_common (t : BASETYPE) : bool :=
  existsb (BASETYPE_eqb t) common_types.

(** ** [type_merge] *)

Module TypeMerge.

(** The values a pixel component type stores: unsigned or signed integers
    of [bits] bits, or binary floating point with [significand] bits of
    precision and largest exponent [exponent]. *)
Inductive numeric_format : Type :=
| UnsignedInt (bits : Z)
| SignedInt (bits : Z)
| Floating (significand exponent : Z).

Definition format_of (t : BASETYPE) : option numeric_format :=
  match t with
  | UINT8 => Some (UnsignedInt 8)
  | INT8 => Some (SignedInt 8)
  | UINT16 => Some (UnsignedInt 16)
  | INT16 => Some (SignedInt 16)
  | UINT => Some (UnsignedInt 32)
  | INT => Some (SignedInt 32)
  | UINT64 => Some (UnsignedInt 64)
  | INT64 => Some (SignedInt 64)
  | HALF => Some (Floating 11 15)
  | FLOAT => Some (Floating 24 127)
  | DOUBLE => Some (Floating 53 1023)
  | _ => None
  end.

(** Storage size in bytes. *)
Definition basesize (t : BASETYPE) : Z :=
  match t with
  | UINT8 | INT8 => 1
  | UINT16 | INT16 | HALF => 2
  | UINT | INT | FLOAT => 4
  | UINT64 | INT64 | DOUBLE => 8
  | _ => 0
  end.

(** Every value of format [a] is a value of format [c]: [c] represents
    [a] without loss of range or precision. *)
Definition format_holds (c a : numeric_format) : bool :=
  match c, a with
  | UnsignedInt m, UnsignedInt n => n <=? m
  | SignedInt m, UnsignedInt n => n <? m
  | SignedInt m, SignedInt n => n <=? m
  | UnsignedInt _, SignedInt _ => false
  | Floating p e, UnsignedInt n => (n <=? p) && (n <=? e + 1)
  | Floating p e, SignedInt n => (n - 1 <=? p) && (n - 1 <=? e)
  | Floating p e, Floating p' e' => (p' <=? p) && (e' <=? e)
  | _, Floating _ _ => false
  end.

Definition holds (c a : BASETYPE) : bool :=
  match format_of c, format_of a with
  | Some fc, Some fa => format_holds fc fa
  | _, _ => false
  end.

(** The supported types from the narrowest to the widest. *)
Definition by_width : list BASETYPE :=
  [UINT8; INT8; UINT16; INT16; HALF; UINT; INT; FLOAT; DOUBLE].

(** Modelled from the spec: the two-argument overload on [BASETYPE] is
    only declared in the header (line 191).  The spec has it map two
    descriptors to "the narrowest descriptor capable of representing both
    without loss of range or precision": the first supported type, from
    the narrowest, that holds both; [UNKNOWN] when there is none. *)
Definition type_merge (a b : BASETYPE) : BASETYPE :=
  match find (fun c => holds c a && holds c b) by_width with
  | Some c => c
  | None => UNKNOWN
  end.

(** Lines 193-197. *)
Definition type_merge3 (a b c : BASETYPE) : BASETYPE :=
  type_merge (type_merge a b) c.

(** Lines 199-201. *)
Definition type_merge_desc (a b : TypeDesc) : TypeDesc :=
  mkTypeDesc (type_merge (basetype a) (basetype b)).

(** Lines 203-206. *)
Definition type_merge_desc3 (a b c : TypeDesc) : TypeDesc :=
  type_merge_desc (type_merge_desc a b) c.

(** What the spec asks of a pairwise merge [m] on the supported types: the
    result represents both operands, and no supported type that does is
    narrower. *)
Definition narrowest_common (m : BASETYPE -> BASETYPE -> BASETYPE) : Prop :=
  forall a b, is_supported a = true -> is_supported b = true ->
    is_supported (m a b) = true /\
    holds (m a b) a = true /\ holds (m a b) b = true /\
    forall c, is_supported c = true -> holds c a = true -> holds c b = true ->
      basesize (m a b) <= basesize c.

End TypeMerge.

(** ** Type dispatch *)

(** The C++ component types the specializations are instantiated at. *)
Inductive ctype : Type :=
| c_float | c_uchar | c_half | c_ushort
| c_char | c_short | c_uint | c_int | c_double.

(** The component type each supported tag stands for. *)
Definition ctype_of (t : BASETYPE) : option ctype :=
  match t with
  | FLOAT => Some c_float
  | UINT8 => Some c_uchar
  | HALF => Some c_half
  | UINT16 => Some c_ushort
  | INT8 => Some c_char
  | INT16 => Some c_short
  | UINT => Some c_uint
  | INT => Some c_int
  | DOUBLE => Some c_double
  | _ => None
  end.

(** The operations of the image container the macros use.  The container
    is declared in another header; a member function that changes its
    object returns the object's new state. *)
Class ImageBufOps (IB : Type) : Type := {
  ib_default : IB;                          (* ImageBuf Rtmp; *)
  ib_initialized : IB -> bool;              (* R.initialized() *)
  ib_copy : IB -> IB -> option TypeDesc -> IB;
                                            (* dst.copy (src [, format]) *)
  ib_error : IB -> string -> IB;            (* R.error (message) *)
  ib_geterror : IB -> string                (* R.geterror() *)
}.

Module Dispatch.

Section Macros.

Context {IB : Type} `{ImageBufOps IB}.

(** How a [TypeDesc] prints under ["%s"]. *)
Variable c_str : TypeDesc -> string.

(** ["%s: Unsupported pixel data format '%s'"] applied to [name] and [type]. *)
Definition unsupported_message (name : string) (type : TypeDesc) : string :=
  String.append name
    (String.append ": Unsupported pixel data format '"
       (String.append (c_str type) "'")).

Definition TypeFloat : TypeDesc := mkTypeDesc FLOAT.

(** A specialization [func<T>(R, ...)]: it may change [R] and returns a
    success flag.  The other arguments are fixed by the call site. *)
Definition func1 : Type := ctype -> IB -> bool * IB.
(** [func<Rtype,Atype>(R, ...)] of exhaustive dispatch. *)
Definition func2 : Type := ctype -> ctype -> IB -> bool * IB.
(** [func<Rtype,Atype>(R, A, ...)] of common-type dispatch. *)
Definition func2A : Type := ctype -> ctype -> IB -> IB -> bool * IB.
(** [func<Rtype,Atype,Btype>(R, A, B, ...)]. *)
Definition func3 : Type := ctype -> ctype -> ctype -> IB -> IB -> IB -> bool * IB.

(** Lines 211-234. *)
Definition OIIO_DISPATCH_TYPES (name : string) (func : func1)
    (type : TypeDesc) (R : IB) : bool * IB :=
  match basetype type with
  | FLOAT => func c_float R
  | UINT8 => func c_uchar R
  | HALF => func c_half R
  | UINT16 => func c_ushort R
  | INT8 => func c_char R
  | INT16 => func c_short R
  | UINT => func c_uint R
  | INT => func c_int R
  | DOUBLE => func c_double R
  | _ => (false, ib_error R (unsupported_message name type))
  end.

(** Lines 237-260. *)
Definition OIIO_DISPATCH_TYPES2_HELP (name : string) (func : func2)
    (Rtype : ctype) (Atype : TypeDesc) (R : IB) : bool * IB :=
  match basetype Atype with
  | FLOAT => func Rtype c_float R
  | UINT8 => func Rtype c_uchar R
  | HALF => func Rtype c_half R
  | UINT16 => func Rtype c_ushort R
  | INT8 => func Rtype c_char R
  | INT16 => func Rtype c_short R
  | UINT => func Rtype c_uint R
  | INT => func Rtype c_int R
  | DOUBLE => func Rtype c_double R
  | _ => (false, ib_error R (unsupported_message name Atype))
  end.

(** Lines 263-295. *)
Definition OIIO_DISPATCH_TYPES2 (name : string) (func : func2)
    (Rtype Atype : TypeDesc) (R : IB) : bool * IB :=
  match basetype Rtype with
  | FLOAT => OIIO_DISPATCH_TYPES2_HELP name func c_float Atype R
  | UINT8 => OIIO_DISPATCH_TYPES2_HELP name func c_uchar Atype R
  | HALF => OIIO_DISPATCH_TYPES2_HELP name func c_half Atype R
  | UINT16 => OIIO_DISPATCH_TYPES2_HELP name func c_ushort Atype R
  | INT8 => OIIO_DISPATCH_TYPES2_HELP name func c_char Atype R
  | INT16 => OIIO_DISPATCH_TYPES2_HELP name func c_short Atype R
  | UINT => OIIO_DISPATCH_TYPES2_HELP name func c_uint Atype R
  | INT => OIIO_DISPATCH_TYPES2_HELP name func c_int Atype R
  | DOUBLE => OIIO_DISPATCH_TYPES2_HELP name func c_double Atype R
  | _ => (false, ib_error R (unsupported_message name Rtype))
  end.

(** The temporary of a [default:] branch: [ImageBuf Rtmp;] followed by
    [if ((R).initialized()) Rtmp.copy (R, TypeDesc::FLOAT);]. *)
Definition float_temporary (R : IB) : IB :=
  let Rtmp := ib_default in
  if ib_initialized R then ib_copy Rtmp R (Some TypeFloat) else Rtmp.

(** Lines 300-321. *)
Definition OIIO_DISPATCH_COMMON_TYPES (name : string) (func : func1)
    (type : TypeDesc) (R : IB) : bool * IB :=
  match basetype type with
  | FLOAT => func c_float R
  | UINT8 => func c_uchar R
  | HALF => func c_half R
  | UINT16 => func c_ushort R
  | _ =>
      let Rtmp := float_temporary R in
      let '(ret, Rtmp) := func c_float Rtmp in
      if ret then (ret, ib_copy R Rtmp None)
      else (ret, ib_error R (ib_geterror Rtmp))
  end.

(** Lines 324-340. *)
Definition OIIO_DISPATCH_COMMON_TYPES2_HELP (name : string) (func : func2A)
    (Rtype : ctype) (Atype : TypeDesc) (R A : IB) : bool * IB :=
  match basetype Atype with
  | FLOAT => func Rtype c_float R A
  | UINT8 => func Rtype c_uchar R A
  | HALF => func Rtype c_half R A
  | UINT16 => func Rtype c_ushort R A
  | _ =>
      let Atmp := ib_copy ib_default A (Some TypeFloat) in
      func Rtype c_float R Atmp
  end.

(** Lines 344-369. *)
Definition OIIO_DISPATCH_COMMON_TYPES2 (name : string) (func : func2A)
    (Rtype Atype : TypeDesc) (R A : IB) : bool * IB :=
  match basetype Rtype with
  | FLOAT => OIIO_DISPATCH_COMMON_TYPES2_HELP name func c_float Atype R A
  | UINT8 => OIIO_DISPATCH_COMMON_TYPES2_HELP name func c_uchar Atype R A
  | HALF => OIIO_DISPATCH_COMMON_TYPES2_HELP name func c_half Atype R A
  | UINT16 => OIIO_DISPATCH_COMMON_TYPES2_HELP name func c_ushort Atype R A
  | _ =>
      let Rtmp := float_temporary R in
      let '(ret, Rtmp) :=
        OIIO_DISPATCH_COMMON_TYPES2_HELP name func c_float Atype Rtmp A in
      if ret then (ret, ib_copy R Rtmp None)
      else (ret, ib_error R (ib_geterror Rtmp))
  end.

(** Lines 373-394.  In the [default:] branch the specialization is called
    on [R], as the source has it, and [Rtmp] is what is copied back. *)
Definition OIIO_DISPATCH_COMMON_TYPES3_HELP2 (name : string) (func : func3)
    (Rtype : TypeDesc) (Atype Btype : ctype) (R A B : IB) : bool * IB :=
  match basetype Rtype with
  | FLOAT => func c_float Atype Btype R A B
  | UINT8 => func c_uchar Atype Btype R A B
  | HALF => func c_half Atype Btype R A B
  | UINT16 => func c_ushort Atype Btype R A B
  | _ =>
      let Rtmp := float_temporary R in
      let '(ret, R) := func c_float Atype Btype R A B in
      if ret then (ret, ib_copy R Rtmp None)
      else (ret, ib_error R (ib_geterror Rtmp))
  end.

(** Lines 397-417. *)
Definition OIIO_DISPATCH_COMMON_TYPES3_HELP (name : string) (func : func3)
    (Rtype : TypeDesc) (Atype : ctype) (Btype : TypeDesc) (R A B : IB)
    : bool * IB :=
  match basetype Btype with
  | FLOAT => OIIO_DISPATCH_COMMON_TYPES3_HELP2 name func Rtype Atype c_float R A B
  | UINT8 => OIIO_DISPATCH_COMMON_TYPES3_HELP2 name func Rtype Atype c_uchar R A B
  | HALF => OIIO_DISPATCH_COMMON_TYPES3_HELP2 name func Rtype Atype c_half R A B
  | UINT16 => OIIO_DISPATCH_COMMON_TYPES3_HELP2 name func Rtype Atype c_ushort R A B
  | _ =>
      let Btmp := ib_copy ib_default B (Some TypeFloat) in
      OIIO_DISPATCH_COMMON_TYPES3_HELP2 name func Rtype Atype c_float R A Btmp
  end.

(** Lines 421-440. *)
Definition OIIO_DISPATCH_COMMON_TYPES3 (name : string) (func : func3)
    (Rtype Atype Btype : TypeDesc) (R A B : IB) : bool * IB :=
  match basetype Atype with
  | FLOAT => OIIO_DISPATCH_COMMON_TYPES3_HELP name func Rtype c_float Btype R A B
  | UINT8 => OIIO_DISPATCH_COMMON_TYPES3_HELP name func Rtype c_uchar Btype R A B
  | HALF => OIIO_DISPATCH_COMMON_TYPES3_HELP name func Rtype c_half Btype R A B
  | UINT16 => OIIO_DISPATCH_COMMON_TYPES3_HELP name func Rtype c_ushort Btype R A B
  | _ =>
      let Atmp := ib_copy ib_default A (Some TypeFloat) in
      OIIO_DISPATCH_COMMON_TYPES3_HELP name func Rtype c_float Btype R Atmp B
  end.

End Macros.

End Dispatch.

(** ** The image container *)

(** Modelled from the spec: [ImageBuf] and [ImageSpec] are declared in
    other headers.  The spec gives the container a shape/spec, pixel
    storage, an "is initialized" query and an error state that is a
    queryable text field. *)

Record ImageSpec : Type := mkImageSpec {
  spec_roi : ROI;              (* data window and channel range *)
  spec_roi_full : ROI;         (* full (display) window *)
  spec_format : TypeDesc;      (* pixel storage type *)
  alpha_channel : Z;           (* index of the alpha channel, -1 if none *)
  z_channel : Z;               (* index of the depth channel, -1 if none *)
  spec_deep : bool;            (* variable-length pixel data *)
  metadata : list (string * string * bool)
                               (* name, value, safe to copy *)
}.

Record ImageBuf : Type := mkImageBuf {
  initialized : bool;
  spec : ImageSpec;
  pixels : list Z;
  err : string
}.

Definition empty_roi : ROI := mkROI 0 0 0 0 0 0 0 0.
Definition empty_spec : ImageSpec :=
  mkImageSpec empty_roi empty_roi (mkTypeDesc UNKNOWN) (-1) (-1) false [].
Definition default_ImageBuf : ImageBuf :=
  mkImageBuf false empty_spec [] EmptyString.

Definition set_format (sp : ImageSpec) (t : TypeDesc) : ImageSpec :=
  mkImageSpec (spec_roi sp) (spec_roi_full sp) t (alpha_channel sp)
              (z_channel sp) (spec_deep sp) (metadata sp).

Definition set_error (b : ImageBuf) (msg : string) : ImageBuf :=
  mkImageBuf (initialized b) (spec b) (pixels b) msg.

Definition has_error (b : ImageBuf) : bool :=
  negb (String.eqb (err b) EmptyString).

(** [dst.copy (src, format)] in the examples: [dst] becomes a copy of
    [src]'s pixels, stored as [format] (as [src] stores them when no
    format is given); an uninitialized [src] leaves [dst] uninitialized.
    The destination's error text is its own. *)
Definition copy (dst src : ImageBuf) (format : option TypeDesc) : ImageBuf :=
  if initialized src then
    let sp := match format with
              | Some t => set_format (spec src) t
              | None => spec src
              end in
    mkImageBuf true sp (pixels src) (err dst)
  else mkImageBuf false empty_spec [] (err dst).

#[export] Instance ImageBuf_ops : ImageBufOps ImageBuf := {
  ib_default := default_ImageBuf;
  ib_initialized := initialized;
  ib_copy := copy;
  ib_error := set_error;
  ib_geterror := err
}.

(** ** [IBAprep] *)

Module Prep.

(** Lines 171-185. *)
Definition IBAprep_DEFAULT : Z := 0.
Definition IBAprep_REQUIRE_ALPHA : Z := Z.shiftl 1 0.
Definition IBAprep_REQUIRE_Z : Z := Z.shiftl 1 1.
Definition IBAprep_REQUIRE_SAME_NCHANNELS : Z := Z.shiftl 1 2.
Definition IBAprep_NO_COPY_ROI_FULL : Z := Z.shiftl 1 3.
Definition IBAprep_NO_SUPPORT_VOLUME : Z := Z.shiftl 1 4.
Definition IBAprep_NO_COPY_METADATA : Z := Z.shiftl 1 8.
Definition IBAprep_COPY_ALL_METADATA : Z := Z.shiftl 1 9.
Definition IBAprep_CLAMP_MUTUAL_NCHANNELS : Z := Z.shiftl 1 10.
Definition IBAprep_SUPPORT_DEEP : Z := Z.shiftl 1 11.
Definition IBAprep_DEEP_MIXED : Z := Z.shiftl 1 12.
Definition IBAprep_DST_FLOAT_PIXELS : Z := Z.shiftl 1 13.
Definition IBAprep_MINIMIZE_NCHANNELS : Z := Z.shiftl 1 14.

Definition has_flag (prepflags flag : Z) : bool :=
  negb (Z.land prepflags flag =? 0).

(** The "entire image" sentinel region and its test. *)
Definition ROI_All : ROI := mkROI Int.INT_MIN 0 0 0 0 0 0 0.
Definition defined (r : ROI) : bool := negb (xbegin r =? Int.INT_MIN).

Definition roi_union (a b : ROI) : ROI :=
  mkROI (Z.min (xbegin a) (xbegin b)) (Z.max (xend a) (xend b))
        (Z.min (ybegin a) (ybegin b)) (Z.max (yend a) (yend b))
        (Z.min (zbegin a) (zbegin b)) (Z.max (zend a) (zend b))
        (Z.min (chbegin a) (chbegin b)) (Z.max (chend a) (chend b)).

(** The union of the regions with the intersection of the channel ranges. *)
Definition roi_union_min_channels (a b : ROI) : ROI :=
  mkROI (Z.min (xbegin a) (xbegin b)) (Z.max (xend a) (xend b))
        (Z.min (ybegin a) (ybegin b)) (Z.max (yend a) (yend b))
        (Z.min (zbegin a) (zbegin b)) (Z.max (zend a) (zend b))
        (Z.max (chbegin a) (chbegin b)) (Z.min (chend a) (chend b)).

Definition set_chend (r : ROI) (v : Z) : ROI :=
  mkROI (xbegin r) (xend r) (ybegin r) (yend r) (zbegin r) (zend r) (chbegin r) v.

(** A source that is given (non-null) and not ready for use. *)
Definition source_unusable (src : option ImageBuf) : bool :=
  match src with
  | None => false
  | Some b => negb (initialized b) || has_error b
  end.

Definition present (A B C : option ImageBuf) : list ImageBuf :=
  flat_map (fun o => match o with Some b => [b] | None => [] end) [A; B; C].

(** The working region when the request is the sentinel. *)
Definition resolve_roi (roi : ROI) (dst : ImageBuf) (srcs : list ImageBuf)
    (prepflags : Z) : ROI :=
  if defined roi then roi
  else if initialized dst then spec_roi (spec dst)
  else
    match srcs with
    | [] => roi
    | s :: rest =>
        fold_left
          (fun acc b =>
             if has_flag prepflags IBAprep_MINIMIZE_NCHANNELS
             then roi_union_min_channels acc (spec_roi (spec b))
             else roi_union acc (spec_roi (spec b)))
          rest (spec_roi (spec s))
    end.

(** The shape an uninitialized destination is allocated with. *)
Definition new_spec (roi : ROI) (srcs : list ImageBuf)
    (force_spec : option ImageSpec) (prepflags : Z) : option ImageSpec :=
  let shape :=
    match force_spec, srcs with
    | Some fs, _ => Some fs
    | None, s :: rest =>
        let full :=
          if has_flag prepflags IBAprep_NO_COPY_ROI_FULL then roi
          else fold_left (fun acc b => roi_union acc (spec_roi_full (spec b)))
                         rest (spec_roi_full (spec s)) in
        let meta :=
          if has_flag prepflags IBAprep_NO_COPY_METADATA then []
          else if has_flag prepflags IBAprep_COPY_ALL_METADATA
               then metadata (spec s)
               else filter (fun m => snd m) (metadata (spec s)) in
        Some (mkImageSpec roi full (spec_format (spec s))
                (alpha_channel (spec s)) (z_channel (spec s))
                (spec_deep (spec s)) meta)
    | None, [] => None
    end in
  match shape with
  | Some sp =>
      Some (if has_flag prepflags IBAprep_DST_FLOAT_PIXELS
            then set_format sp (mkTypeDesc FLOAT) else sp)
  | None => None
  end.

Definition allocate (dst : ImageBuf) (sp : ImageSpec) : ImageBuf :=
  mkImageBuf true sp
    (repeat 0 (Z.to_nat (npixels (spec_roi sp) * nchannels (spec_roi sp))))
    (err dst).

(** The structural requirements of the flags; the text of the first one
    violated. *)
Definition structural_error (roi : ROI) (dst : ImageBuf) (srcs : list ImageBuf)
    (prepflags : Z) : option string :=
  let all := dst :: srcs in
  if has_flag prepflags IBAprep_REQUIRE_ALPHA
     && existsb (fun b => alpha_channel (spec b) <? 0) all
  then Some "images must have alpha channels"%string
  else if has_flag prepflags IBAprep_REQUIRE_Z
     && existsb (fun b => z_channel (spec b) <? 0) all
  then Some "images must have depth channels"%string
  else if has_flag prepflags IBAprep_REQUIRE_SAME_NCHANNELS
     && existsb (fun b => negb (nchannels (spec_roi (spec b))
                                =? nchannels (spec_roi (spec dst)))) srcs
  then Some "images must have the same number of channels"%string
  else if has_flag prepflags IBAprep_NO_SUPPORT_VOLUME
     && existsb (fun b => 1 <? depth (spec_roi (spec b))) all
  then Some "volumes not supported"%string
  else if existsb (fun b => spec_deep (spec b)) all
     && negb (has_flag prepflags IBAprep_SUPPORT_DEEP)
  then Some "deep images not supported"%string
  else if existsb (fun b => spec_deep (spec b)) all
     && negb (forallb (fun b => spec_deep (spec b)) all)
     && negb (has_flag prepflags IBAprep_DEEP_MIXED)
  then Some "mixing deep and flat images not supported"%string
  else None.

(** Modelled from the spec: [IBAprep] is only declared in the header
    (lines 158-160).  Following the spec's list of behaviours: a source
    that is given but uninitialized or in error fails the preparation at
    once; otherwise the sentinel region is resolved, an uninitialized
    destination is given its shape, the channel range is clamped when
    asked for, and the structural requirements are enforced, a violation
    being recorded on the destination.  The result is the success flag,
    the working region and the destination. *)
Definition IBAprep (roi : ROI) (dst : ImageBuf) (A B C : option ImageBuf)
    (force_spec : option ImageSpec) (prepflags : Z) : bool * ROI * ImageBuf :=
  if source_unusable A || source_unusable B || source_unusable C
  then (false, roi, dst)
  else
    let srcs := present A B C in
    let roi := resolve_roi roi dst srcs prepflags in
    let prepared :=
      if initialized dst then Some dst
      else match new_spec roi srcs force_spec prepflags with
           | Some sp => Some (allocate dst sp)
           | None => None
           end in
    match prepared with
    | None => (false, roi, set_error dst "no image to take the shape from")
    | Some dst' =>
        let roi :=
          if has_flag prepflags IBAprep_CLAMP_MUTUAL_NCHANNELS
          then set_chend roi
                 (fold_left (fun m b => Z.min m (chend (spec_roi (spec b))))
                            srcs (chend roi))
          else roi in
        match structural_error roi dst' srcs prepflags with
        | Some msg => (false, roi, set_error dst msg)
        | None => (true, roi, dst')
        end
    end.

(** Lines 161-165. *)
Definition IBAprep_AB (roi : ROI) (dst : ImageBuf) (A B : option ImageBuf)
    (force_spec : option ImageSpec) (prepflags : Z) : bool * ROI * ImageBuf :=
  IBAprep roi dst A B None force_spec prepflags.

(** Lines 166-169. *)
Definition IBAprep_A (roi : ROI) (dst : ImageBuf) (A : option ImageBuf)
    (prepflags : Z) : bool * ROI * ImageBuf :=
  IBAprep roi dst A None None None prepflags.

End Prep.

(** The extent of a region along an axis. *)
Definition axis_extent (d : SplitDir) (r : ROI) : Z :=
  axis_end d r - axis_begin d r.

(** ** Regions used in the examples *)

(** 1024 x 1024 pixels. *)
Definition roi_1024 : ROI := mkROI 0 1024 0 1024 0 1 0 4.
(** 1000 x 1 pixels: too few for a second thread. *)
Definition roi_row : ROI := mkROI 0 1000 0 1 0 1 0 4.
(** The degenerate region of no pixels. *)
Definition roi_degenerate : ROI := mkROI 0 0 0 0 0 1 0 4.
(** 4096 x 16 pixels: wider than tall. *)
Definition roi_wide : ROI := mkROI 0 4096 0 16 0 1 0 4.
(** 16384 x 5 pixels: five rows for four threads. *)
Definition roi_5rows : ROI := mkROI 0 16384 0 5 0 1 0 4.
(** The same five rows at the top of the [int] range. *)
Definition roi_top : ROI :=
  mkROI 0 16384 (Int.INT_MAX - 5) Int.INT_MAX 0 1 0 4.

(** ** Specializations and containers used in the examples *)

Definition flat_spec (r : ROI) (t : BASETYPE) : ImageSpec :=
  mkImageSpec r r (mkTypeDesc t) (-1) (-1) false [].

(** Two pixels of one channel. *)
Definition roi_2px : ROI := mkROI 0 2 0 1 0 1 0 1.

Definition buf (t : BASETYPE) (px : list Z) : ImageBuf :=
  mkImageBuf true (flat_spec roi_2px t) px EmptyString.

(** A one-operand operation that fills the destination with a constant. *)
Definition func_fill (T : ctype) (R : ImageBuf) : bool * ImageBuf :=
  (true, mkImageBuf true (flat_spec roi_2px FLOAT) [7; 7] (err R)).

(** A one-operand operation that fails and says why on its destination. *)
Definition func_fail (T : ctype) (R : ImageBuf) : bool * ImageBuf :=
  (false, set_error R "fill: no pixels").

(** A three-operand operation: the destination receives the sum of the
    two inputs, pixel by pixel. *)
Definition func_add (TR TA TB : ctype) (R A B : ImageBuf) : bool * ImageBuf :=
  (true, mkImageBuf (initialized R) (spec R)
           (map (fun p => fst p + snd p) (combine (pixels A) (pixels B)))
           (err R)).

(** A three-operand operation that fails and says why on its destination. *)
Definition func_add_fail (TR TA TB : ctype) (R A B : ImageBuf) : bool * ImageBuf :=
  (false, set_error R "add: inputs differ in size").

(** The one-operand form of [func_add]: the inputs are fixed arguments. *)
Definition func_add1 (A B : ImageBuf) (T : ctype) (R : ImageBuf) : bool * ImageBuf :=
  func_add T c_float c_float R A B.

(** How the examples print a type descriptor. *)
Definition c_str (t : TypeDesc) : string :=
  match basetype t with
  | UNKNOWN => "unknown" | NONE => "void"
  | UINT8 => "uint8" | INT8 => "int8" | UINT16 => "uint16" | INT16 => "int16"
  | UINT => "uint" | INT => "int" | UINT64 => "uint64" | INT64 => "int64"
  | HALF => "half" | FLOAT => "float" | DOUBLE => "double"
  | STRING => "string" | PTR => "pointer"
  end.

(** ** Bands by index *)

(** The band of counter value [k] when axis [d] of [r] is cut into blocks
    of [bs]: it starts [k] blocks after the begin of the axis and ends one
    block later, or at the end of the axis if that comes first. *)
Definition nth_band (d : SplitDir) (r : ROI) (bs k : Z) : ROI :=
  set_axis d r (axis_begin d r + k * bs)
    (Z.min (axis_begin d r + (k + 1) * bs) (axis_end d r)).

(** What the loop does with that band among [n] threads. *)
Definition band_event (d : SplitDir) (r : ROI) (bs n k : Z) : event :=
  if k <? n - 1 then Spawn (nth_band d r bs k) else Call (nth_band d r bs k).

(** A region with its x and y bounds the wrong way round. *)
Definition roi_inverted : ROI := mkROI 0 (-200) 0 (-200) 0 1 0 4.

(** ** Operands as common-type dispatch sees them *)

(** The four component types common-type dispatch instantiates. *)
Definition common_ctype (T : ctype) : bool :=
  match T with
  | c_float | c_uchar | c_half | c_ushort => true
  | _ => false
  end.

(** The component type an operand of tag [t] is dispatched at: its own
    for the four common tags, [float] for every other tag. *)
Definition dispatched_ctype (t : TypeDesc) : ctype :=
  match basetype t with
  | UINT8 => c_uchar
  | HALF => c_half
  | UINT16 => c_ushort
  | _ => c_float
  end.

(** The input the specialization receives for an input [A] of tag [t]:
    [A] itself for the four common tags, a float copy otherwise. *)
Definition dispatched_input {IB : Type} `{ImageBufOps IB} (t : TypeDesc) (A : IB) : IB :=
  if is_common (basetype t) then A
  else ib_copy ib_default A (Some (mkTypeDesc FLOAT)).

(** A one-operand operation that works on the common types only. *)
Definition func_fill_common (T : ctype) (R : ImageBuf) : bool * ImageBuf :=
  if common_ctype T then func_fill T R else func_fail T R.

(** A two-operand operation: the destination becomes a copy of the input. *)
Definition func_copy (TR TA : ctype) (R A : ImageBuf) : bool * ImageBuf :=
  (true, mkImageBuf (initialized A) (spec A) (pixels A) (err R)).

(** The same, refusing component types other than the common ones. *)
Definition func_copy_common (TR TA : ctype) (R A : ImageBuf) : bool * ImageBuf :=
  if common_ctype TR && common_ctype TA then func_copy TR TA R A
  else (false, set_error R "copy: type not supported").

(** [func_add], refusing component types other than the common ones. *)
Definition func_add_common (TR TA TB : ctype) (R A B : ImageBuf) : bool * ImageBuf :=
  if common_ctype TR && common_ctype TA && common_ctype TB
  then func_add TR TA TB R A B
  else func_add_fail TR TA TB R A B.

(** The flags of [IBAprep_flags], lines 171-185, but for the default. *)
Definition IBAprep_flag_bits : list Z :=
  [Prep.IBAprep_REQUIRE_ALPHA; Prep.IBAprep_REQUIRE_Z;
   Prep.IBAprep_REQUIRE_SAME_NCHANNELS; Prep.IBAprep_NO_COPY_ROI_FULL;
   Prep.IBAprep_NO_SUPPORT_VOLUME; Prep.IBAprep_NO_COPY_METADATA;
   Prep.IBAprep_COPY_ALL_METADATA; Prep.IBAprep_CLAMP_MUTUAL_NCHANNELS;
   Prep.IBAprep_SUPPORT_DEEP; Prep.IBAprep_DEEP_MIXED;
   Prep.IBAprep_DST_FLOAT_PIXELS; Prep.IBAprep_MINIMIZE_NCHANNELS].

(** Flags combined with bitwise or, starting from [IBAprep_DEFAULT]. *)
Definition combine_flags (flags : list Z) : Z :=
  fold_right Z.lor Prep.IBAprep_DEFAULT flags.

(** ** Facts about [int] arithmetic *)

Section IntFacts.

Import Int.

Lemma to_int_id (z : Z) : in_range z -> to_int z = z.
Proof.
  unfold in_range, to_int, INT_MIN, INT_MAX. intros H.
  rewrite Z.mod_small; lia.
Qed.

Lemma to_int_in_range (z : Z) : in_range (to_int z).
Proof.
  unfold in_range, to_int, INT_MIN, INT_MAX.
  pose proof (Z.mod_pos_bound (z + 2 ^ 31) (2 ^ 32) ltac:(lia)). lia.
Qed.

Lemma add_id (a b : Z) : in_range (a + b) -> add a b = a + b.
Proof. apply to_int_id. Qed.

Lemma sub_id (a b : Z) : in_range (a - b) -> sub a b = a - b.
Proof. apply to_int_id. Qed.

Lemma mul_id (a b : Z) : in_range (a * b) -> mul a b = a * b.
Proof. apply to_int_id. Qed.

Lemma div_id (a b : Z) :
  0 <= a -> 0 < b -> in_range (a / b) -> div a b = a / b.
Proof.
  intros Ha Hb Hr. unfold div. rewrite Z.quot_div_nonneg by lia.
  now apply to_int_id.
Qed.

(** The block size of line 118 is the rounded-up quotient. *)
Lemma blocksize_bounds (s n : Z) :
  1 <= n <= s ->
  let q := (s + n - 1) / n in
  1 <= q /\ s <= n * q /\ n * q <= s + n - 1.
Proof.
  intros H q.
  pose proof (Z.mul_div_le (s + n - 1) n ltac:(lia)) as Hle.
  pose proof (Z.mul_succ_div_gt (s + n - 1) n ltac:(lia)) as Hgt.
  fold q in Hle, Hgt. nia.
Qed.

End IntFacts.

(** ** Facts about regions and bands *)

Section Geometry.

Lemma contains_set_axis (d : SplitDir) (r : ROI) (lo hi x y z : Z) :
  contains (set_axis d r lo hi) x y z =
  contains_off_axis d r x y z
  && ((lo <=? coord d x y z) && (coord d x y z <? hi)).
Proof.
  destruct d; unfold contains, contains_off_axis, coord; simpl;
    repeat match goal with
           | |- context [?a <=? ?b] => destruct (a <=? b)
           | |- context [?a <? ?b] => destruct (a <? b)
           end; reflexivity.
Qed.

Lemma set_axis_self (d : SplitDir) (r : ROI) :
  set_axis d r (axis_begin d r) (axis_end d r) = r.
Proof. destruct d, r; reflexivity. Qed.

Lemma set_axis_twice (d : SplitDir) (r : ROI) (a b a' b' : Z) :
  set_axis d (set_axis d r a b) a' b' = set_axis d r a' b'.
Proof. destruct d; reflexivity. Qed.

Lemma axis_begin_set_axis (d : SplitDir) (r : ROI) (a b : Z) :
  axis_begin d (set_axis d r a b) = a.
Proof. destruct d; reflexivity. Qed.

Lemma axis_end_set_axis (d : SplitDir) (r : ROI) (a b : Z) :
  axis_end d (set_axis d r a b) = b.
Proof. destruct d; reflexivity. Qed.

Lemma tiles_le (d : SplitDir) (r0 : ROI) (bands : list ROI) :
  forall lo hi, tiles d r0 lo hi bands -> lo <= hi.
Proof.
  induction bands as [|b bands IH]; simpl; intros lo hi Ht.
  - lia.
  - destruct Ht as (mid & Hmid & _ & Ht). apply IH in Ht. lia.
Qed.

(** Every band of a tiling is the original region with its own bounds on
    the split axis, and lies between the ends. *)
Lemma tiles_In (d : SplitDir) (r0 : ROI) (bands : list ROI) :
  forall lo hi b, tiles d r0 lo hi bands -> In b bands ->
    b = set_axis d r0 (axis_begin d b) (axis_end d b) /\
    lo <= axis_begin d b /\ axis_begin d b < axis_end d b /\ axis_end d b <= hi.
Proof.
  induction bands as [|b0 bands IH]; simpl; intros lo hi b Ht Hin.
  - contradiction.
  - destruct Ht as (mid & Hmid & Hb0 & Ht).
    pose proof (tiles_le _ _ _ _ _ Ht) as Hle.
    destruct Hin as [<- | Hin].
    + subst b0. rewrite axis_begin_set_axis, axis_end_set_axis.
      repeat split; lia.
    + destruct (IH _ _ _ Ht Hin) as (He & H1 & H2 & H3).
      repeat split; auto; lia.
Qed.

(** Bands of a tiling come in increasing order along the axis. *)
Lemma tiles_ordered (d : SplitDir) (r0 : ROI) (bands : list ROI) :
  forall lo hi i j bi bj, tiles d r0 lo hi bands -> (i < j)%nat ->
    nth_error bands i = Some bi -> nth_error bands j = Some bj ->
    axis_end d bi <= axis_begin d bj.
Proof.
  induction bands as [|b0 bands IH]; intros lo hi i j bi bj Ht Hij Hi Hj.
  - destruct i; discriminate.
  - destruct Ht as (mid & Hmid & Hb0 & Ht).
    destruct j as [|j]; [lia|]. simpl in Hj.
    destruct i as [|i]; simpl in Hi.
    + injection Hi as <-. subst b0. rewrite axis_end_set_axis.
      apply nth_error_In in Hj.
      destruct (tiles_In _ _ _ _ _ _ Ht Hj) as (_ & H1 & _). exact H1.
    + apply (IH mid hi i j); auto. lia.
Qed.

(** A pixel is in as many bands of a tiling as it is in the tiled
    region: one or none. *)
Lemma tiles_count (d : SplitDir) (r0 : ROI) (bands : list ROI) (x y z : Z) :
  forall lo hi, tiles d r0 lo hi bands ->
    List.length (filter (fun b => contains b x y z) bands) =
    if contains (set_axis d r0 lo hi) x y z then 1%nat else 0%nat.
Proof.
  induction bands as [|b0 bands IH]; simpl; intros lo hi Ht.
  - subst hi. rewrite contains_set_axis.
    destruct (contains_off_axis d r0 x y z); simpl; auto.
    destruct (Z.leb_spec lo (coord d x y z)), (Z.ltb_spec (coord d x y z) lo);
      simpl; auto; lia.
  - destruct Ht as (mid & Hmid & Hb0 & Ht).
    pose proof (tiles_le _ _ _ _ _ Ht) as Hle.
    specialize (IH _ _ Ht). subst b0.
    rewrite contains_set_axis in IH. rewrite !contains_set_axis.
    destruct (contains_off_axis d r0 x y z); simpl in *; auto.
    destruct (Z.leb_spec lo (coord d x y z)), (Z.ltb_spec (coord d x y z) mid),
             (Z.leb_spec mid (coord d x y z)), (Z.ltb_spec (coord d x y z) hi);
      simpl in *; rewrite ?IH; auto; lia.
Qed.

End Geometry.
(** ** The loop of [parallel_image] *)

Section BandLoop.

Import Int.

Lemma next_band_exact (d : SplitDir) (r0 roi : ROI) (b0 e0 bs i : Z) :
  (forall a b, set_axis d roi a b = set_axis d r0 a b) ->
  in_range (i * bs) -> in_range (b0 + i * bs) ->
  in_range (b0 + i * bs + bs) ->
  next_band d b0 e0 bs i roi =
  if b0 + i * bs >=? Z.min (b0 + i * bs + bs) e0 then None
  else Some (set_axis d r0 (b0 + i * bs) (Z.min (b0 + i * bs + bs) e0)).
Proof.
  intros Hoff H1 H2 H3.
  assert (Hb : add b0 (mul i bs) = b0 + i * bs)
    by (rewrite mul_id, add_id; auto).
  assert (He : add (b0 + i * bs) bs = b0 + i * bs + bs)
    by (rewrite add_id; auto).
  specialize (Hoff (b0 + i * bs) (Z.min (b0 + i * bs + bs) e0)).
  destruct d; unfold next_band; simpl; rewrite Hb, He;
    (destruct (_ >=? _); [reflexivity | f_equal; exact Hoff]).
Qed.

Variables (d : SplitDir) (r0 : ROI) (b0 e0 bs n : Z).
Hypothesis Hmin : INT_MIN <= b0.
Hypothesis Hbs : 1 <= bs.
Hypothesis Hn : 1 <= n.
Hypothesis Hcover : e0 - b0 <= n * bs.
Hypothesis Hmul : n * bs <= INT_MAX.
Hypothesis Hmax : b0 + n * bs <= INT_MAX.

Lemma band_index_bounds (i : Z) :
  0 <= i < n ->
  in_range (i * bs) /\ in_range (b0 + i * bs) /\ in_range (b0 + i * bs + bs).
Proof.
  intros Hi. unfold in_range in *.
  assert (0 <= i * bs) by nia.
  assert (i * bs + bs <= n * bs) by nia.
  assert (INT_MIN <= 0) by (unfold INT_MIN; lia).
  lia.
Qed.

(** From iteration [i] on, the loop hands out the rest of the axis, from
    where iteration [i] starts to [e0], or nothing when that start is at
    or beyond [e0]. *)
Lemma band_loop_tiles (k : nat) :
  forall i roi,
    Z.of_nat k + i = n -> 0 <= i ->
    (forall a b, set_axis d roi a b = set_axis d r0 a b) ->
    tiles d r0 (Z.min (b0 + i * bs) e0) e0
      (invocations
         (band_loop d b0 e0 bs n (map Z.of_nat (seq (Z.to_nat i) k)) roi)).
Proof.
  induction k as [|k IH]; intros i roi Hk Hi Hoff.
  - simpl. assert (i = n) by lia. subst i. lia.
  - cbn [seq map band_loop]. rewrite Z2Nat.id by lia.
    destruct (band_index_bounds i ltac:(lia)) as (H1 & H2 & H3).
    rewrite (next_band_exact d r0 roi) by assumption.
    destruct (Z.geb_spec (b0 + i * bs) (Z.min (b0 + i * bs + bs) e0)) as [Hge|Hlt].
    + simpl. lia.
    + assert (Hnext : S (Z.to_nat i) = Z.to_nat (i + 1)) by lia.
      rewrite Hnext.
      set (band := set_axis d r0 (b0 + i * bs) (Z.min (b0 + i * bs + bs) e0)).
      assert (Hinv : forall l,
                 invocations ((if i <? sub n 1 then Spawn band else Call band) :: l)
                 = band :: invocations l)
        by (intros l; destruct (i <? sub n 1); reflexivity).
      rewrite Hinv. simpl.
      exists (Z.min (b0 + i * bs + bs) e0). repeat split; try lia.
      * unfold band. f_equal. lia.
      * replace (Z.min (b0 + i * bs + bs) e0)
          with (Z.min (b0 + (i + 1) * bs) e0) at 1 by (f_equal; ring).
        apply IH; try lia.
        intros a b. unfold band. apply set_axis_twice.
Qed.

(** A thread is started for every band but the one of the last value of
    the counter, so fewer than [n] threads are started. *)
Lemma band_loop_spawned (k : nat) :
  forall i roi,
    Z.of_nat k + i = n -> 0 <= i ->
    (List.length
       (spawned (band_loop d b0 e0 bs n (map Z.of_nat (seq (Z.to_nat i) k)) roi))
     <= Z.to_nat (n - 1 - i))%nat.
Proof.
  assert (Hsub : sub n 1 = n - 1).
  { apply sub_id. unfold in_range, INT_MIN, INT_MAX in *. nia. }
  induction k as [|k IH]; intros i roi Hk Hi.
  - simpl. lia.
  - cbn [seq map band_loop]. rewrite Z2Nat.id by lia.
    destruct (next_band d b0 e0 bs i roi) as [roi'|]; simpl; [|lia].
    replace (S (Z.to_nat i)) with (Z.to_nat (i + 1)) by lia.
    specialize (IH (i + 1) roi' ltac:(lia) ltac:(lia)).
    rewrite Hsub. destruct (Z.ltb_spec i (n - 1)); simpl; lia.
Qed.

End BandLoop.

(** ** [parallel_image] on regions without overflow *)

Section ParallelImageFacts.

Import Int.

Lemma axis_fits_extent (b e : Z) :
  axis_fits b e -> sub e b = e - b /\ 0 <= e - b.
Proof.
  unfold axis_fits, INT_MIN, INT_MAX. intros (H1 & H2 & H3 & H4).
  split; [|lia]. apply sub_id. unfold in_range, INT_MIN, INT_MAX. lia.
Qed.

Lemma roi_fits_extents (roi : ROI) :
  roi_fits roi ->
  width roi = xend roi - xbegin roi /\ height roi = yend roi - ybegin roi /\
  depth roi = zend roi - zbegin roi /\
  0 <= width roi /\ 0 <= height roi /\ 0 <= depth roi.
Proof.
  intros (Hx & Hy & Hz). unfold width, height, depth.
  destruct (axis_fits_extent _ _ Hx) as [-> ?].
  destruct (axis_fits_extent _ _ Hy) as [-> ?].
  destruct (axis_fits_extent _ _ Hz) as [-> ?].
  repeat split; assumption.
Qed.

Lemma roi_fits_npixels_nonneg (roi : ROI) : roi_fits roi -> 0 <= npixels roi.
Proof.
  intros H. destruct (roi_fits_extents roi H) as (_ & _ & _ & ? & ? & ?).
  unfold npixels. nia.
Qed.

(** An empty region has no pixels, whatever its other bounds. *)
Lemma roi_empty_npixels (roi : ROI) : roi_empty roi -> npixels roi = 0.
Proof.
  unfold roi_empty, npixels, width, height, depth, sub.
  intros [H | [H | H]]; rewrite H, Z.sub_diag; unfold to_int; simpl; lia.
Qed.

(** The axis the loop runs on is never [Split_Biggest]. *)
Lemma resolve_splitdir_axis (roi : ROI) (d : SplitDir) :
  resolve_splitdir roi d <> Split_Biggest.
Proof.
  unfold resolve_splitdir. destruct d; simpl; try discriminate.
  destruct (width roi >? height roi); discriminate.
Qed.

Lemma roi_begin_axis (roi : ROI) (d : SplitDir) :
  d <> Split_Biggest ->
  roi_begin roi d = axis_begin d roi /\ roi_end roi d = axis_end d roi.
Proof. destruct d; intros Hd; try contradiction; split; reflexivity. Qed.

Lemma roi_fits_axis (roi : ROI) (d : SplitDir) :
  roi_fits roi -> axis_fits (axis_begin d roi) (axis_end d roi).
Proof. intros (Hx & Hy & Hz). destruct d; assumption. Qed.

(** More than one thread after the cap by pixels means the region has
    pixels, hence a positive extent on every axis. *)
Lemma cap_by_pixels_nonempty (roi : ROI) (nthreads : Z) :
  roi_fits roi -> 1 < cap_by_pixels nthreads roi -> roi_nonempty roi.
Proof.
  intros Hfit Hcap.
  destruct (roi_fits_extents roi Hfit) as (Hw & Hh & Hd & Hw0 & Hh0 & Hd0).
  assert (Hp : npixels roi <> 0).
  { intros Hp. unfold cap_by_pixels in Hcap. rewrite Hp in Hcap.
    change (add 1 (to_int (0 / 16384))) with 1 in Hcap. lia. }
  unfold npixels in Hp. unfold roi_nonempty. nia.
Qed.

Lemma roi_nonempty_axis (roi : ROI) (d : SplitDir) :
  roi_nonempty roi -> axis_begin d roi < axis_end d roi.
Proof. intros (Hx & Hy & Hz). destruct d; assumption. Qed.

(** The run of [parallel_image] once more than one thread survives the
    cap by pixels: the thread count is capped by the extent of the split
    axis, the block size is the rounded-up quotient, and the loop runs. *)
Lemma parallel_image_split (attr : Z) (roi : ROI) (T : Z) (d : SplitDir) :
  roi_fits roi ->
  1 < cap_by_pixels (resolve_nthreads attr T) roi ->
  let ax := resolve_splitdir roi d in
  let b0 := axis_begin ax roi in
  let e0 := axis_end ax roi in
  let n := Z.min (cap_by_pixels (resolve_nthreads attr T) roi) (e0 - b0) in
  let bs := (e0 - b0 + n - 1) / n in
  parallel_image attr roi T d =
    mkRun n (band_loop ax b0 e0 bs n (counter_values n) roi ++ [JoinAll]) /\
  1 <= n <= e0 - b0 /\ 1 <= bs /\
  e0 - b0 <= n * bs /\ n * bs <= e0 - b0 + n - 1.
Proof.
  intros Hfit Hcap ax b0 e0 n bs.
  pose proof (cap_by_pixels_nonempty roi _ Hfit Hcap) as Hne.
  pose proof (roi_nonempty_axis roi ax Hne) as Hlt. fold b0 e0 in Hlt.
  pose proof (roi_fits_axis roi ax Hfit) as Hax. fold b0 e0 in Hax.
  destruct (axis_fits_extent _ _ Hax) as [Hsub _].
  destruct Hax as (H1 & H2 & H3 & H4).
  assert (Hn : 1 <= n <= e0 - b0) by (unfold n; lia).
  destruct (blocksize_bounds (e0 - b0) n Hn) as (Hq1 & Hq2 & Hq3). fold bs in Hq1, Hq2, Hq3.
  split; [|repeat split; lia].
  unfold parallel_image.
  destruct (Z.leb_spec (cap_by_pixels (resolve_nthreads attr T) roi) 1); [lia|].
  fold ax. destruct (roi_begin_axis roi ax (resolve_splitdir_axis roi d)) as [-> ->].
  fold b0 e0. rewrite Hsub. fold n.
  assert (Hbs : div (sub (add (e0 - b0) n) 1) n = bs).
  { unfold INT_MAX in *.
    rewrite add_id by (unfold in_range, INT_MIN, INT_MAX; lia).
    rewrite sub_id by (unfold in_range, INT_MIN, INT_MAX; lia).
    apply div_id; try lia. fold bs. unfold in_range, INT_MIN, INT_MAX. nia. }
  rewrite Hbs. rewrite Z.max_r by lia. reflexivity.
Qed.

(** The bands handed out by such a run tile the split axis of the
    region. *)
Lemma parallel_image_tiles (attr : Z) (roi : ROI) (T : Z) (d : SplitDir) :
  roi_fits roi ->
  1 < cap_by_pixels (resolve_nthreads attr T) roi ->
  let ax := resolve_splitdir roi d in
  tiles ax roi (axis_begin ax roi) (axis_end ax roi)
    (invocations (events (parallel_image attr roi T d))).
Proof.
  intros Hfit Hcap ax.
  destruct (parallel_image_split attr roi T d Hfit Hcap)
    as (Hrun & Hn & Hbs & Hcov & Hup).
  fold ax in Hrun, Hn, Hbs, Hcov, Hup.
  pose proof (roi_fits_axis roi ax Hfit) as (H1 & H2 & H3 & H4).
  rewrite Hrun. cbn [events]. unfold invocations. rewrite flat_map_app.
  cbn [flat_map]. rewrite app_nil_r. fold (invocations).
  set (b0 := axis_begin ax roi) in *. set (e0 := axis_end ax roi) in *.
  set (n := Z.min _ (e0 - b0)) in *. set (bs := (e0 - b0 + n - 1) / n) in *.
  replace b0 with (Z.min (b0 + 0 * bs) e0) at 1 by lia.
  apply (band_loop_tiles ax roi b0 e0 bs n); unfold INT_MAX in *; try lia.
  reflexivity.
Qed.

End ParallelImageFacts.

(** ** Properties of [parallel_image] *)

Section ParallelImageClaims.

Import Int.

Lemma tiles_nonempty (d : SplitDir) (r0 : ROI) (lo hi : Z) (bands : list ROI) :
  tiles d r0 lo hi bands -> lo < hi -> bands <> [].
Proof. destruct bands; simpl; [lia | discriminate]. Qed.

(** C1.  For a non-empty region and more than one thread after the cap by
    pixels, the regions [parallel_image] passes to the callable are
    disjoint along the split axis (they come in increasing order, each
    ending no later than the next begins), each is the original region
    except for the begin and end of the split axis, the pixels of their
    union are exactly the pixels of the original region, and every pixel
    of the region is in exactly one of them. *)
Theorem C1_bands_partition (attr T : Z) (roi : ROI) (d : SplitDir) :
  roi_fits roi -> roi_nonempty roi ->
  1 < cap_by_pixels (resolve_nthreads attr T) roi ->
  let ax := resolve_splitdir roi d in
  let bands := invocations (events (parallel_image attr roi T d)) in
  (forall i j bi bj, (i < j)%nat ->
      nth_error bands i = Some bi -> nth_error bands j = Some bj ->
      axis_end ax bi <= axis_begin ax bj) /\
  (forall b, In b bands ->
      b = set_axis ax roi (axis_begin ax b) (axis_end ax b) /\
      axis_begin ax roi <= axis_begin ax b /\
      axis_begin ax b < axis_end ax b /\
      axis_end ax b <= axis_end ax roi) /\
  (forall x y z, contains roi x y z = true <->
      exists b, In b bands /\ contains b x y z = true) /\
  (forall x y z, contains roi x y z = true ->
      List.length (filter (fun b => contains b x y z) bands) = 1%nat).
Proof.
  intros Hfit Hne Hcap ax bands.
  pose proof (parallel_image_tiles attr roi T d Hfit Hcap) as Ht.
  fold ax bands in Ht.
  assert (Hcount : forall x y z,
             List.length (filter (fun b => contains b x y z) bands) =
             if contains roi x y z then 1%nat else 0%nat).
  { intros x y z. rewrite (tiles_count ax roi bands x y z _ _ Ht).
    now rewrite set_axis_self. }
  split; [|split; [|split]].
  - intros i j bi bj. apply (tiles_ordered ax roi bands _ _ i j bi bj Ht).
  - intros b Hb. apply (tiles_In ax roi bands _ _ b Ht Hb).
  - intros x y z. specialize (Hcount x y z). split.
    + intros Hin. rewrite Hin in Hcount.
      destruct (filter (fun b => contains b x y z) bands) as [|b l] eqn:Hf;
        [discriminate|].
      assert (Hb : In b (filter (fun b => contains b x y z) bands))
        by (rewrite Hf; left; reflexivity).
      apply filter_In in Hb. exists b. exact Hb.
    + intros (b & Hb & Hc).
      assert (Hb' : In b (filter (fun b => contains b x y z) bands))
        by (apply filter_In; split; assumption).
      destruct (contains roi x y z); [reflexivity|].
      destruct (filter (fun b => contains b x y z) bands);
        [contradiction | discriminate].
  - intros x y z Hin. rewrite Hcount, Hin. reflexivity.
Qed.

Lemma C1_bands_partition_witness :
  let bands := invocations (events (parallel_image 8 roi_1024 8 Split_Biggest)) in
  List.length bands = 8%nat /\
  forall x y z, contains roi_1024 x y z = true ->
    List.length (filter (fun b => contains b x y z) bands) = 1%nat.
Proof.
  split; [reflexivity|].
  apply (C1_bands_partition 8 8 roi_1024 Split_Biggest).
  - unfold roi_fits, axis_fits, INT_MIN, INT_MAX; simpl; lia.
  - unfold roi_nonempty; simpl; lia.
  - vm_compute. reflexivity.
Defined.

(** Why C1 asks for [roi_fits]: signed overflow is undefined in C++, and
    under the wrap-around of this model a region that ends at [INT_MAX]
    loses its last row, because the end of the third band,
    [ybegin + blocksize], wraps to a negative number. *)
Remark parallel_image_wraps_at_INT_MAX :
  invocations (events (parallel_image 8 roi_top 4 Split_Y)) =
  [mkROI 0 16384 (INT_MAX - 5) (INT_MAX - 3) 0 1 0 4;
   mkROI 0 16384 (INT_MAX - 3) (INT_MAX - 1) 0 1 0 4].
Proof. reflexivity. Qed.

(** The claim C2 as the spec states it fails on the degenerate region of
    no pixels: the formula gives 0 threads where the code uses 1. *)
Lemma C2_counterexample :
  nthreads_used (parallel_image 8 roi_degenerate 4 Split_Y) = 1 /\
  Z.min (Z.min (resolve_nthreads 8 4) (1 + npixels roi_degenerate / 16384))
        (axis_extent (resolve_splitdir roi_degenerate Split_Y) roi_degenerate)
  = 0 /\
  nthreads_used (parallel_image 8 roi_degenerate 4 Split_Y) <>
  Z.min (Z.min (resolve_nthreads 8 4) (1 + npixels roi_degenerate / 16384))
        (axis_extent (resolve_splitdir roi_degenerate Split_Y) roi_degenerate).
Proof. repeat split. discriminate. Qed.

(** C2, amended.  For a region with begin <= end on every axis and a
    requested or default thread count of at least 1, the value of
    [nthreads] that [parallel_image] ends with is
    [max (1, min (T_or_default, 1 + floor (P / 16384), extent))], it is at
    least 1, and the callable is applied at least once. *)
Theorem C2_thread_count (attr T : Z) (roi : ROI) (d : SplitDir) :
  roi_fits roi ->
  npixels roi / 16384 < INT_MAX ->
  1 <= resolve_nthreads attr T ->
  let r := parallel_image attr roi T d in
  nthreads_used r =
    Z.max 1 (Z.min (Z.min (resolve_nthreads attr T) (1 + npixels roi / 16384))
                   (axis_extent (resolve_splitdir roi d) roi)) /\
  1 <= nthreads_used r /\
  invocations (events r) <> [].
Proof.
  intros Hfit Hpix HT r.
  pose proof (roi_fits_npixels_nonneg roi Hfit) as Hp.
  assert (Hq : 0 <= npixels roi / 16384) by (apply Z.div_pos; lia).
  assert (Hcap : cap_by_pixels (resolve_nthreads attr T) roi =
                 Z.min (resolve_nthreads attr T) (1 + npixels roi / 16384)).
  { unfold cap_by_pixels. unfold INT_MAX in Hpix.
    rewrite to_int_id by (unfold in_range, INT_MIN, INT_MAX; lia).
    rewrite add_id by (unfold in_range, INT_MIN, INT_MAX; lia). reflexivity. }
  destruct (Z.leb_spec (cap_by_pixels (resolve_nthreads attr T) roi) 1) as [Hle|Hgt].
  - assert (Hr : r = mkRun (cap_by_pixels (resolve_nthreads attr T) roi) [Call roi]).
    { unfold r, parallel_image.
      destruct (Z.leb_spec (cap_by_pixels (resolve_nthreads attr T) roi) 1);
        [reflexivity | lia]. }
    rewrite Hr. cbn [nthreads_used events]. rewrite Hcap in *.
    repeat split; [lia | lia | discriminate].
  - destruct (parallel_image_split attr roi T d Hfit Hgt)
      as (Hrun & Hn & _).
    pose proof (parallel_image_tiles attr roi T d Hfit Hgt) as Ht.
    fold r in Hrun, Ht. cbn zeta in Hrun, Hn, Ht.
    repeat split.
    + rewrite Hrun. cbn [nthreads_used]. unfold axis_extent.
      rewrite Hcap in *. lia.
    + rewrite Hrun. cbn [nthreads_used]. lia.
    + apply (tiles_nonempty _ _ _ _ _ Ht). lia.
Qed.

Lemma C2_thread_count_witness :
  nthreads_used (parallel_image 8 roi_1024 0 Split_Biggest) = 8 /\
  nthreads_used (parallel_image 8 roi_row 4 Split_Biggest) = 1.
Proof.
  split.
  - apply (C2_thread_count 8 0 roi_1024 Split_Biggest).
    + unfold roi_fits, axis_fits, INT_MIN, INT_MAX; simpl; lia.
    + vm_compute. reflexivity.
    + vm_compute. discriminate.
  - apply (C2_thread_count 8 4 roi_row Split_Biggest).
    + unfold roi_fits, axis_fits, INT_MIN, INT_MAX; simpl; lia.
    + vm_compute. reflexivity.
    + vm_compute. discriminate.
Defined.

(** C7.  When the thread count after the cap by pixels is at most 1, and
    in particular for every empty region, [parallel_image] does one thing
    only: it calls the callable itself on the region as it was given.  No
    thread is started. *)
Theorem C7_single_invocation (attr T : Z) (roi : ROI) (d : SplitDir) :
  cap_by_pixels (resolve_nthreads attr T) roi <= 1 \/ roi_empty roi ->
  events (parallel_image attr roi T d) = [Call roi].
Proof.
  intros H.
  assert (Hle : cap_by_pixels (resolve_nthreads attr T) roi <= 1).
  { destruct H as [H | H]; [exact H|].
    unfold cap_by_pixels. rewrite (roi_empty_npixels roi H).
    change (add 1 (to_int (0 / 16384))) with 1. lia. }
  unfold parallel_image.
  destruct (Z.leb_spec (cap_by_pixels (resolve_nthreads attr T) roi) 1);
    [reflexivity | lia].
Qed.

Lemma C7_single_invocation_witness :
  events (parallel_image 8 roi_degenerate 4 Split_Y) = [Call roi_degenerate] /\
  events (parallel_image 8 roi_row 4 Split_Biggest) = [Call roi_row].
Proof.
  split.
  - apply (C7_single_invocation 8 4 roi_degenerate Split_Y).
    right. left. reflexivity.
  - apply (C7_single_invocation 8 4 roi_row Split_Biggest).
    left. vm_compute. discriminate.
Defined.

(** When only the cap by the extent of the split axis brings the count
    down to 1, the loop runs once: again one call by the caller, on a
    region equal to the one given, and no thread. *)
Lemma parallel_image_one_band (attr T : Z) (roi : ROI) (d : SplitDir) :
  roi_fits roi ->
  1 < cap_by_pixels (resolve_nthreads attr T) roi ->
  axis_extent (resolve_splitdir roi d) roi = 1 ->
  events (parallel_image attr roi T d) = [Call roi; JoinAll].
Proof.
  intros Hfit Hcap Hext.
  destruct (parallel_image_split attr roi T d Hfit Hcap) as (Hrun & Hn & _).
  cbn zeta in Hrun, Hn. unfold axis_extent in Hext. rewrite Hrun. cbn [events].
  rewrite Hext in *.
  replace (Z.min (cap_by_pixels (resolve_nthreads attr T) roi) 1) with 1 by lia.
  change ((1 + 1 - 1) / 1) with 1. change (counter_values 1) with [0].
  cbn [band_loop].
  pose proof (roi_fits_axis roi (resolve_splitdir roi d) Hfit) as (H1 & H2 & H3 & H4).
  rewrite (next_band_exact _ roi roi) by
    (try reflexivity; unfold in_range, INT_MIN, INT_MAX in *; lia).
  replace (Z.min (axis_begin (resolve_splitdir roi d) roi + 0 * 1 + 1)
                 (axis_end (resolve_splitdir roi d) roi))
    with (axis_end (resolve_splitdir roi d) roi) by lia.
  replace (axis_begin (resolve_splitdir roi d) roi + 0 * 1)
    with (axis_begin (resolve_splitdir roi d) roi) by lia.
  destruct (Z.geb_spec (axis_begin (resolve_splitdir roi d) roi)
                       (axis_end (resolve_splitdir roi d) roi)); [lia|].
  rewrite set_axis_self. reflexivity.
Qed.

(** The claim C4 as the spec states it fails: with no split direction
    given, a region wider than tall is not split along x; the bands are
    rows. *)
Lemma C4_counterexample :
  (width roi_wide >? height roi_wide) = true /\
  resolve_splitdir roi_wide default_splitdir <> Split_X /\
  resolve_splitdir roi_wide default_splitdir = Split_Y /\
  invocations (events (parallel_image 4 roi_wide default_nthreads default_splitdir))
  = [mkROI 0 4096 0 4 0 1 0 4; mkROI 0 4096 4 8 0 1 0 4;
     mkROI 0 4096 8 12 0 1 0 4; mkROI 0 4096 12 16 0 1 0 4].
Proof. repeat split. discriminate. Qed.

(** C4, amended.  The default split direction is [Split_Y].  The longest
    edge is looked for only when [Split_Biggest] is asked for: then the
    axis is x when the region is wider than tall and y otherwise.  An
    explicit x, y or z is kept, so z is chosen only when asked for. *)
Theorem C4_split_axis (roi : ROI) (d : SplitDir) :
  default_splitdir = Split_Y /\
  resolve_splitdir roi d =
    match d with
    | Split_Biggest => if width roi >? height roi then Split_X else Split_Y
    | _ => d
    end /\
  (resolve_splitdir roi d = Split_Z <-> d = Split_Z).
Proof.
  split; [reflexivity|]. unfold resolve_splitdir.
  destruct d; simpl; (split; [reflexivity|]); try tauto;
    try (split; discriminate).
  destruct (width roi >? height roi); split; discriminate.
Qed.

(** C5 at five rows and four threads: the block size is 2, the third band
    is the last one, the loop leaves at the fourth value of the counter,
    and the last band is one of the three given to new threads; the
    caller runs none. *)
Theorem C5_last_band_spawned :
  cap_by_pixels (resolve_nthreads 8 4) roi_5rows = 4 /\
  events (parallel_image 8 roi_5rows 4 Split_Y) =
    [Spawn (mkROI 0 16384 0 2 0 1 0 4);
     Spawn (mkROI 0 16384 2 4 0 1 0 4);
     Spawn (mkROI 0 16384 4 5 0 1 0 4);
     JoinAll] /\
  called (events (parallel_image 8 roi_5rows 4 Split_Y)) = [].
Proof. repeat split. Qed.

(** What does hold of the threads: fewer threads are started than the
    thread count, and the join is the last thing the function does. *)
Lemma parallel_image_threads (attr T : Z) (roi : ROI) (d : SplitDir) :
  roi_fits roi ->
  1 < cap_by_pixels (resolve_nthreads attr T) roi ->
  let r := parallel_image attr roi T d in
  (List.length (spawned (events r)) <= Z.to_nat (nthreads_used r - 1))%nat /\
  nthreads_used r <= cap_by_pixels (resolve_nthreads attr T) roi /\
  exists l, events r = l ++ [JoinAll] /\ ~ In JoinAll l.
Proof.
  intros Hfit Hcap r.
  destruct (parallel_image_split attr roi T d Hfit Hcap)
    as (Hrun & Hn & Hbs & Hcov & Hup).
  cbn zeta in Hrun, Hn, Hbs, Hcov, Hup. fold r in Hrun.
  pose proof (roi_fits_axis roi (resolve_splitdir roi d) Hfit) as (H1 & H2 & H3 & H4).
  rewrite Hrun. cbn [events nthreads_used].
  set (ax := resolve_splitdir roi d) in *.
  set (b0 := axis_begin ax roi) in *. set (e0 := axis_end ax roi) in *.
  set (n := Z.min _ (e0 - b0)) in *. set (bs := (e0 - b0 + n - 1) / n) in *.
  repeat split.
  - unfold spawned. rewrite flat_map_app. cbn [flat_map]. rewrite app_nil_r.
    fold spawned.
    pose proof (band_loop_spawned ax b0 e0 bs n ltac:(lia) ltac:(lia)
                  ltac:(unfold INT_MAX in *; lia) (Z.to_nat n) 0 roi
                  ltac:(lia) ltac:(lia)) as Hs.
    rewrite Z.sub_0_r in Hs. exact Hs.
  - lia.
  - eexists. split; [reflexivity|].
    generalize (counter_values n) roi. intros idx.
    induction idx as [|i idx IH]; intros roi'; simpl; [tauto|].
    destruct (next_band ax b0 e0 bs i roi'); simpl; [|tauto].
    intros [Habs | Hin]; [destruct (i <? sub n 1); discriminate|].
    exact (IH _ Hin).
Qed.

End ParallelImageClaims.

(** ** Properties of [type_merge] *)

Section TypeMergeClaims.

Import TypeMerge.

Lemma find_pointwise {A : Type} (f g : A -> bool) (l : list A) :
  (forall x, f x = g x) -> find f l = find g l.
Proof.
  intros Hfg. induction l as [|x l IH]; simpl; [reflexivity|].
  rewrite Hfg, IH. reflexivity.
Qed.

Lemma type_merge_comm (a b : BASETYPE) : type_merge a b = type_merge b a.
Proof.
  unfold type_merge.
  rewrite (find_pointwise (fun c => holds c a && holds c b)
                          (fun c => holds c b && holds c a)); [reflexivity|].
  intros c. apply andb_comm.
Qed.

(** The model is a merge as the spec words it: its result represents both
    operands and no supported type that does is narrower. *)
Lemma type_merge_narrowest_common : narrowest_common type_merge.
Proof.
  intros a b Ha Hb.
  destruct a; try discriminate Ha; destruct b; try discriminate Hb;
    (split; [reflexivity|]); (split; [reflexivity|]); (split; [reflexivity|]);
    intros c Hc H1 H2; destruct c; try discriminate;
    vm_compute; discriminate.
Qed.

(** No merge that meets the spec's wording is associative on the
    supported types: the narrowest type for [UINT8] and [INT8] is [INT16]
    or [HALF], and either choice is then widened to [FLOAT] by a third
    operand that the other grouping absorbs. *)
Lemma narrowest_common_not_associative (m : BASETYPE -> BASETYPE -> BASETYPE) :
  narrowest_common m ->
  exists a b c,
    is_supported a = true /\ is_supported b = true /\ is_supported c = true /\
    m (m a b) c <> m a (m b c).
Proof.
  intros Hm.
  assert (pin : forall a b w r,
             is_supported a = true -> is_supported b = true ->
             is_supported w = true -> holds w a = true -> holds w b = true ->
             (forall t, is_supported t = true -> holds t a = true ->
                        holds t b = true -> basesize t <= basesize w ->
                        t = r \/ t = w) ->
             m a b = r \/ m a b = w).
  { intros a b w r Ha Hb Hw Hwa Hwb Honly.
    destruct (Hm a b Ha Hb) as (Hs & H1 & H2 & Hmin).
    apply Honly; auto. }
  assert (H1 : m UINT8 INT8 = HALF \/ m UINT8 INT8 = INT16).
  { apply pin; try reflexivity.
    intros t Ht Ha Hb Hsz; destruct t; try discriminate; auto;
      vm_compute in Hsz; contradiction. }
  assert (H2 : m INT8 HALF = HALF).
  { destruct (pin INT8 HALF HALF HALF) as [E|E]; try reflexivity; auto.
    intros t Ht Ha Hb Hsz; destruct t; try discriminate; auto;
      vm_compute in Hsz; contradiction. }
  assert (H3 : m UINT8 HALF = HALF).
  { destruct (pin UINT8 HALF HALF HALF) as [E|E]; try reflexivity; auto.
    intros t Ht Ha Hb Hsz; destruct t; try discriminate; auto;
      vm_compute in Hsz; contradiction. }
  assert (H4 : m INT16 HALF = FLOAT).
  { destruct (pin INT16 HALF FLOAT FLOAT) as [E|E]; try reflexivity; auto.
    intros t Ht Ha Hb Hsz; destruct t; try discriminate; auto;
      vm_compute in Hsz; contradiction. }
  assert (H5 : m HALF INT16 = FLOAT).
  { destruct (pin HALF INT16 FLOAT FLOAT) as [E|E]; try reflexivity; auto.
    intros t Ht Ha Hb Hsz; destruct t; try discriminate; auto;
      vm_compute in Hsz; contradiction. }
  assert (H6 : m INT8 INT16 = INT16).
  { destruct (pin INT8 INT16 INT16 INT16) as [E|E]; try reflexivity; auto.
    intros t Ht Ha Hb Hsz; destruct t; try discriminate; auto;
      vm_compute in Hsz; contradiction. }
  assert (H7 : m UINT8 INT16 = INT16).
  { destruct (pin UINT8 INT16 INT16 INT16) as [E|E]; try reflexivity; auto.
    intros t Ht Ha Hb Hsz; destruct t; try discriminate; auto;
      vm_compute in Hsz; contradiction. }
  destruct H1 as [E | E].
  - exists UINT8, INT8, INT16. repeat split; try reflexivity.
    rewrite E, H5, H6, H7. discriminate.
  - exists UINT8, INT8, HALF. repeat split; try reflexivity.
    rewrite E, H4, H2, H3. discriminate.
Qed.

(** The claim C8 as the spec states it fails: the two groupings of
    [UINT8], [INT8] and [HALF] merge to different types. *)
Lemma C8_counterexample :
  is_supported UINT8 = true /\ is_supported INT8 = true /\
  is_supported HALF = true /\
  type_merge (type_merge UINT8 INT8) HALF = FLOAT /\
  type_merge UINT8 (type_merge INT8 HALF) = HALF /\
  type_merge (type_merge UINT8 INT8) HALF
    <> type_merge UINT8 (type_merge INT8 HALF).
Proof. repeat split. discriminate. Qed.

(** C8, amended.  On the supported types [type_merge] is commutative, the
    three-way merge is the two-way merge applied twice from the left, and
    each grouping of three operands returns a type that represents all
    three; the groupings return the same type when none of the operands
    is [INT8] or [INT16]. *)
Theorem C8_type_merge (a b c : BASETYPE) :
  is_supported a = true -> is_supported b = true -> is_supported c = true ->
  type_merge a b = type_merge b a /\
  type_merge3 a b c = type_merge (type_merge a b) c /\
  type_merge_desc3 (mkTypeDesc a) (mkTypeDesc b) (mkTypeDesc c) =
    mkTypeDesc (type_merge3 a b c) /\
  (holds (type_merge (type_merge a b) c) a
   && holds (type_merge (type_merge a b) c) b
   && holds (type_merge (type_merge a b) c) c = true) /\
  (holds (type_merge a (type_merge b c)) a
   && holds (type_merge a (type_merge b c)) b
   && holds (type_merge a (type_merge b c)) c = true) /\
  (existsb (fun t => BASETYPE_eqb t INT8 || BASETYPE_eqb t INT16) [a; b; c] = false ->
   type_merge (type_merge a b) c = type_merge a (type_merge b c)).
Proof.
  intros Ha Hb Hc.
  split; [apply type_merge_comm|]. split; [reflexivity|]. split; [reflexivity|].
  destruct a; try discriminate Ha; destruct b; try discriminate Hb;
    destruct c; try discriminate Hc;
    (split; [reflexivity|]); (split; [reflexivity|]);
    intros Hsigned; try reflexivity; discriminate Hsigned.
Qed.

Lemma C8_type_merge_witness :
  type_merge UINT8 UINT16 = UINT16 /\
  type_merge (type_merge UINT8 UINT16) HALF = FLOAT /\
  type_merge (type_merge UINT8 UINT16) HALF = type_merge UINT8 (type_merge UINT16 HALF).
Proof.
  split; [reflexivity|]. split; [reflexivity|].
  apply (C8_type_merge UINT8 UINT16 HALF); reflexivity.
Defined.

End TypeMergeClaims.

(** ** Properties of the dispatch macros *)

Section DispatchClaims.

Import Dispatch.

Context {IB : Type} `{ImageBufOps IB}.
Variable type_text : TypeDesc -> string.

Lemma ctype_of_supported (t : BASETYPE) :
  is_supported t = true <-> exists T, ctype_of t = Some T.
Proof.
  destruct t; simpl; split; intros Hs;
    try discriminate; try reflexivity; try (eexists; reflexivity);
    destruct Hs as [T HT]; discriminate.
Qed.

(** C6.  Exhaustive dispatch on one type calls the specialization of the
    tag's own component type on the destination as it is, for each of the
    nine supported tags; for any other tag it calls nothing, reports
    failure and records ["<name>: Unsupported pixel data format
    '<type>'"] on the destination.  Dispatch on two types does the same
    for the pair, the message naming the result type when that one is
    unsupported and the operand type otherwise. *)
Theorem C6_exhaustive_dispatch (name : string) (f1 : func1) (f2 : func2)
    (type Rtype Atype : TypeDesc) (R : IB) :
  OIIO_DISPATCH_TYPES type_text name f1 type R =
    match ctype_of (basetype type) with
    | Some T => f1 T R
    | None => (false, ib_error R
                 (String.append name
                    (String.append ": Unsupported pixel data format '"
                       (String.append (type_text type) "'"))))
    end /\
  OIIO_DISPATCH_TYPES2 type_text name f2 Rtype Atype R =
    match ctype_of (basetype Rtype), ctype_of (basetype Atype) with
    | Some TR, Some TA => f2 TR TA R
    | Some _, None =>
        (false, ib_error R
           (String.append name
              (String.append ": Unsupported pixel data format '"
                 (String.append (type_text Atype) "'"))))
    | None, _ =>
        (false, ib_error R
           (String.append name
              (String.append ": Unsupported pixel data format '"
                 (String.append (type_text Rtype) "'"))))
    end /\
  (forall t, (exists T, ctype_of t = Some T) <->
             In t [FLOAT; UINT8; HALF; UINT16; INT8; INT16; UINT; INT; DOUBLE]).
Proof.
  split; [|split].
  - unfold OIIO_DISPATCH_TYPES. destruct (basetype type); reflexivity.
  - unfold OIIO_DISPATCH_TYPES2, OIIO_DISPATCH_TYPES2_HELP.
    destruct (basetype Rtype); try reflexivity;
      destruct (basetype Atype); reflexivity.
  - intros t. split.
    + intros [T HT]. destruct t; try discriminate; simpl; tauto.
    + intros Hin. simpl in Hin.
      repeat (destruct Hin as [<- | Hin]; [eexists; reflexivity|]).
      contradiction.
Qed.

(** C10.  In common-type dispatch on one or two types with a destination
    type outside the four common ones, the destination is copied into the
    float temporary only if it is initialized, and the temporary of an
    uninitialized destination is a fresh container; the float
    specialization runs on the temporary (in the two-type macro with the
    input as it is or as a float copy, by the input's own tag), the
    result flag is the specialization's own, and on success the
    destination becomes a copy of the temporary. *)
Theorem C10_uninitialized_destination (name : string) (f1 : func1)
    (f2 : func2A) (type Rtype Atype : TypeDesc) (R A : IB) :
  is_common (basetype type) = false ->
  is_common (basetype Rtype) = false ->
  let Rtmp :=
    if ib_initialized R then ib_copy ib_default R (Some (mkTypeDesc FLOAT))
    else ib_default in
  let run1 := f1 c_float Rtmp in
  let run2 :=
    f2 c_float (dispatched_ctype Atype) Rtmp (dispatched_input Atype A) in
  OIIO_DISPATCH_COMMON_TYPES name f1 type R =
    (fst run1, if fst run1 then ib_copy R (snd run1) None
               else ib_error R (ib_geterror (snd run1))) /\
  OIIO_DISPATCH_COMMON_TYPES2 name f2 Rtype Atype R A =
    (fst run2, if fst run2 then ib_copy R (snd run2) None
               else ib_error R (ib_geterror (snd run2))) /\
  (ib_initialized R = false -> Rtmp = ib_default).
Proof.
  intros Ht HR Rtmp run1 run2.
  split; [|split].
  - unfold OIIO_DISPATCH_COMMON_TYPES.
    destruct (basetype type); try discriminate Ht;
      change (float_temporary R) with Rtmp; fold run1;
      destruct run1 as [[] Rtmp1]; reflexivity.
  - assert (Hhelp : OIIO_DISPATCH_COMMON_TYPES2_HELP name f2 c_float Atype Rtmp A
                    = run2).
    { unfold run2, OIIO_DISPATCH_COMMON_TYPES2_HELP, dispatched_ctype,
        dispatched_input.
      destruct (basetype Atype); reflexivity. }
    unfold OIIO_DISPATCH_COMMON_TYPES2.
    destruct (basetype Rtype); try discriminate HR;
      change (float_temporary R) with Rtmp; rewrite Hhelp;
      destruct run2 as [[] Rtmp2]; reflexivity.
  - intros Hinit. unfold Rtmp. rewrite Hinit. reflexivity.
Qed.

(** The fallback of the one- and two-type macros on any destination: the
    float specialization runs on the temporary, a success copies the
    temporary to the destination and a failure forwards the temporary's
    error text. *)
Lemma common_types_fallback (name : string) (f1 : func1) (type : TypeDesc)
    (R : IB) :
  is_common (basetype type) = false ->
  let run := f1 c_float (float_temporary R) in
  OIIO_DISPATCH_COMMON_TYPES name f1 type R =
    (fst run, if fst run then ib_copy R (snd run) None
              else ib_error R (ib_geterror (snd run))).
Proof.
  intros Ht run. unfold OIIO_DISPATCH_COMMON_TYPES.
  destruct (basetype type); try discriminate Ht; fold run;
    destruct run as [[] Rtmp]; reflexivity.
Qed.

Lemma common_types2_fallback (name : string) (f2 : func2A)
    (Rtype Atype : TypeDesc) (R A : IB) :
  is_common (basetype Rtype) = false ->
  let run :=
    OIIO_DISPATCH_COMMON_TYPES2_HELP name f2 c_float Atype (float_temporary R) A in
  OIIO_DISPATCH_COMMON_TYPES2 name f2 Rtype Atype R A =
    (fst run, if fst run then ib_copy R (snd run) None
              else ib_error R (ib_geterror (snd run))).
Proof.
  intros Ht run. unfold OIIO_DISPATCH_COMMON_TYPES2.
  destruct (basetype Rtype); try discriminate Ht; fold run;
    destruct run as [[] Rtmp]; reflexivity.
Qed.

(** The fallback of the three-type helper: the float specialization runs
    on the destination itself, and the temporary that is copied back or
    asked for its error is the one made before the call. *)
Lemma common_types3_fallback (name : string) (f3 : func3) (Rtype : TypeDesc)
    (TA TB : ctype) (R A B : IB) :
  is_common (basetype Rtype) = false ->
  let run := f3 c_float TA TB R A B in
  OIIO_DISPATCH_COMMON_TYPES3_HELP2 name f3 Rtype TA TB R A B =
    (fst run, if fst run then ib_copy (snd run) (float_temporary R) None
              else ib_error (snd run) (ib_geterror (float_temporary R))).
Proof.
  intros Ht run. unfold OIIO_DISPATCH_COMMON_TYPES3_HELP2.
  destruct (basetype Rtype); try discriminate Ht; fold run;
    destruct run as [[] R1]; reflexivity.
Qed.

End DispatchClaims.

Section DispatchExamples.

Import Dispatch.

Lemma C10_uninitialized_destination_witness :
  OIIO_DISPATCH_COMMON_TYPES "fill" func_fill (mkTypeDesc UNKNOWN)
    default_ImageBuf
  = (true, buf FLOAT [7; 7]) /\
  OIIO_DISPATCH_COMMON_TYPES "fill" func_fail (mkTypeDesc UNKNOWN)
    default_ImageBuf
  = (false, set_error default_ImageBuf "fill: no pixels") /\
  OIIO_DISPATCH_COMMON_TYPES2 "copy" func_copy (mkTypeDesc UNKNOWN)
    (mkTypeDesc DOUBLE) default_ImageBuf (buf DOUBLE [1; 2])
  = (true, buf FLOAT [1; 2]) /\
  OIIO_DISPATCH_COMMON_TYPES2 "copy" func_copy_common (mkTypeDesc UNKNOWN)
    (mkTypeDesc UINT8) default_ImageBuf (buf UINT8 [1; 2])
  = (true, buf UINT8 [1; 2]).
Proof.
  split; [|split; [|split]].
  - destruct (C10_uninitialized_destination (H := ImageBuf_ops) "fill" func_fill
                func_copy (mkTypeDesc UNKNOWN)
                (mkTypeDesc UNKNOWN) (mkTypeDesc FLOAT)
                default_ImageBuf default_ImageBuf
                eq_refl eq_refl) as (H1 & _ & _).
    exact H1.
  - destruct (C10_uninitialized_destination (H := ImageBuf_ops) "fill" func_fail
                func_copy (mkTypeDesc UNKNOWN)
                (mkTypeDesc UNKNOWN) (mkTypeDesc FLOAT)
                default_ImageBuf default_ImageBuf
                eq_refl eq_refl) as (H1 & _ & _).
    exact H1.
  - destruct (C10_uninitialized_destination (H := ImageBuf_ops) "copy" func_fill
                func_copy (mkTypeDesc UNKNOWN)
                (mkTypeDesc UNKNOWN) (mkTypeDesc DOUBLE)
                default_ImageBuf (buf DOUBLE [1; 2])
                eq_refl eq_refl) as (_ & H2 & _).
    exact H2.
  - destruct (C10_uninitialized_destination (H := ImageBuf_ops) "copy" func_fill
                func_copy_common (mkTypeDesc UNKNOWN)
                (mkTypeDesc UNKNOWN) (mkTypeDesc UINT8)
                default_ImageBuf (buf UINT8 [1; 2])
                eq_refl eq_refl) as (_ & H2 & _).
    exact H2.
Defined.

(** C3 at a [DOUBLE] destination and two float inputs.  Through the
    one-type macro the destination receives the sum computed on the
    temporary, and the text a failing specialization records on the
    temporary is recorded on the destination.  Through the three-type
    macros the sum is computed on the destination and then overwritten by
    the temporary, the copy of the destination made before the call. *)
Theorem C3_three_type_fallback_loses_result :
  let R := buf DOUBLE [0; 0] in
  let A := buf FLOAT [1; 2] in
  let B := buf FLOAT [10; 20] in
  let double := mkTypeDesc DOUBLE in
  let float := mkTypeDesc FLOAT in
  OIIO_DISPATCH_COMMON_TYPES "add" (func_add1 A B) double R
    = (true, buf FLOAT [11; 22]) /\
  OIIO_DISPATCH_COMMON_TYPES "add" (fun T R => func_add_fail T c_float c_float R A B)
      double R
    = (false, set_error R "add: inputs differ in size") /\
  func_add c_float c_float c_float R A B = (true, buf DOUBLE [11; 22]) /\
  OIIO_DISPATCH_COMMON_TYPES3 "add" func_add double float float R A B
    = (true, buf FLOAT [0; 0]).
Proof. repeat split. Qed.

(** Exhaustive dispatch at a tag without a specialization. *)
Example dispatch_types_unsupported :
  OIIO_DISPATCH_TYPES c_str "fill" func_fill (mkTypeDesc UINT64) (buf UINT64 [1; 2])
  = (false, set_error (buf UINT64 [1; 2])
              "fill: Unsupported pixel data format 'uint64'") /\
  OIIO_DISPATCH_TYPES c_str "fill" func_fill (mkTypeDesc INT16) (buf INT16 [1; 2])
  = func_fill c_short (buf INT16 [1; 2]).
Proof. split; reflexivity. Qed.

End DispatchExamples.

(** ** Properties of [IBAprep] *)

Section PrepClaims.

Import Prep.

(** C9.  When a source that is given is uninitialized or carries an
    error, [IBAprep] returns false with the region and the destination as
    they were passed: nothing is allocated and no field of the
    destination changes.  The overloads with fewer sources do the same. *)
Theorem C9_unusable_source_fails (roi : ROI) (dst : ImageBuf)
    (A B C : option ImageBuf) (force_spec : option ImageSpec) (prepflags : Z) :
  source_unusable A = true \/ source_unusable B = true \/
  source_unusable C = true ->
  IBAprep roi dst A B C force_spec prepflags = (false, roi, dst) /\
  (C = None -> IBAprep_AB roi dst A B force_spec prepflags = (false, roi, dst)) /\
  (B = None -> C = None -> IBAprep_A roi dst A prepflags = (false, roi, dst)).
Proof.
  intros Hbad.
  assert (Hany : forall fs,
             source_unusable A || source_unusable B || source_unusable C = true ->
             IBAprep roi dst A B C fs prepflags = (false, roi, dst)).
  { intros fs Hor. unfold IBAprep. rewrite Hor. reflexivity. }
  assert (Hor : source_unusable A || source_unusable B || source_unusable C = true).
  { destruct Hbad as [-> | [-> | ->]]; rewrite ?orb_true_r; reflexivity. }
  split; [apply Hany; exact Hor|]. split.
  - intros ->. apply Hany; exact Hor.
  - intros -> ->. unfold IBAprep_A.
    unfold IBAprep. rewrite Hor. reflexivity.
Qed.

Lemma C9_unusable_source_fails_witness :
  source_unusable (Some default_ImageBuf) = true /\
  IBAprep ROI_All default_ImageBuf (Some (buf FLOAT [1; 2]))
          (Some default_ImageBuf) None None IBAprep_DEFAULT
  = (false, ROI_All, default_ImageBuf).
Proof.
  split; [reflexivity|].
  destruct (C9_unusable_source_fails ROI_All default_ImageBuf
              (Some (buf FLOAT [1; 2])) (Some default_ImageBuf) None None
              IBAprep_DEFAULT (or_intror (or_introl eq_refl))) as (H1 & _).
  exact H1.
Defined.

(** With usable sources the same call prepares the destination. *)
Example IBAprep_allocates :
  let '(ok, roi, dst) :=
    IBAprep ROI_All default_ImageBuf (Some (buf FLOAT [1; 2])) None None None
            IBAprep_DEFAULT in
  ok = true /\ roi = roi_2px /\ initialized dst = true /\ pixels dst = [0; 0].
Proof. repeat split. Qed.

End PrepClaims.

(** ** The events of [parallel_image], band by band *)

Section BandLoopExact.

Import Int.

Variables (d : SplitDir) (r0 : ROI) (bs n m : Z).
Let b0 := axis_begin d r0.
Let e0 := axis_end d r0.
Hypothesis Hmin : INT_MIN <= b0.
Hypothesis Hbs : 1 <= bs.
Hypothesis Hn : 1 <= n.
Hypothesis Hcover : e0 - b0 <= n * bs.
Hypothesis Hmul : n * bs <= INT_MAX.
Hypothesis Hmax : b0 + n * bs <= INT_MAX.
Hypothesis Hm_lo : (m - 1) * bs < e0 - b0.
Hypothesis Hm_hi : e0 - b0 <= m * bs.

(** The loop visits the counter values below [m], the number of blocks
    it takes to reach the end of the axis, and leaves at [m]. *)
Lemma band_loop_exact (k : nat) :
  forall i roi,
    Z.of_nat k + i = n -> 0 <= i <= m ->
    (forall a b, set_axis d roi a b = set_axis d r0 a b) ->
    band_loop d b0 e0 bs n (map Z.of_nat (seq (Z.to_nat i) k)) roi =
    map (band_event d r0 bs n)
        (map Z.of_nat (seq (Z.to_nat i) (Z.to_nat (m - i)))).
Proof.
  assert (Hsub : sub n 1 = n - 1).
  { apply sub_id. unfold in_range, INT_MIN, INT_MAX in *. nia. }
  assert (Hmn : m <= n) by nia.
  induction k as [|k IH]; intros i roi Hk Hi Hoff.
  - assert (i = m) by lia. subst i. rewrite Z.sub_diag. reflexivity.
  - cbn [seq map band_loop]. rewrite Z2Nat.id by lia.
    destruct (band_index_bounds b0 bs n Hmin Hbs Hmul Hmax i ltac:(lia))
      as (H1 & H2 & H3).
    rewrite (next_band_exact d r0 roi) by assumption.
    destruct (Z.eq_dec i m) as [Him | Him].
    + subst i. rewrite Z.sub_diag. cbn [Z.to_nat seq map].
      destruct (Z.geb_spec (b0 + m * bs) (Z.min (b0 + m * bs + bs) e0));
        [reflexivity | lia].
    + assert (Hlt : i * bs < e0 - b0) by nia.
      destruct (Z.geb_spec (b0 + i * bs) (Z.min (b0 + i * bs + bs) e0));
        [lia|].
      replace (Z.to_nat (m - i)) with (S (Z.to_nat (m - (i + 1)))) by lia.
      cbn [seq map]. rewrite Z2Nat.id by lia.
      replace (S (Z.to_nat i)) with (Z.to_nat (i + 1)) by lia.
      rewrite (IH (i + 1)); [| lia | lia | intros a b; apply set_axis_twice].
      f_equal. unfold band_event, nth_band. fold b0 e0. rewrite Hsub.
      replace (b0 + (i + 1) * bs) with (b0 + i * bs + bs) by ring.
      reflexivity.
Qed.

End BandLoopExact.

Section ParallelImageEvents.

Import Int.

(** The number of blocks of [bs] it takes to cover [s]. *)
Lemma block_count_bounds (s bs : Z) :
  1 <= s -> 1 <= bs ->
  let m := (s + bs - 1) / bs in
  1 <= m /\ (m - 1) * bs < s /\ s <= m * bs.
Proof.
  intros Hs Hbs m.
  pose proof (Z.mul_div_le (s + bs - 1) bs ltac:(lia)) as Hle.
  pose proof (Z.mul_succ_div_gt (s + bs - 1) bs ltac:(lia)) as Hgt.
  fold m in Hle, Hgt. nia.
Qed.

(** The run of [parallel_image] in closed form, for the properties
    below. *)
Lemma parallel_image_run_exact (attr T : Z) (roi : ROI) (d : SplitDir) :
  roi_fits roi ->
  1 < cap_by_pixels (resolve_nthreads attr T) roi ->
  let r := parallel_image attr roi T d in
  let ax := resolve_splitdir roi d in
  let s := axis_extent ax roi in
  let n := nthreads_used r in
  let bs := (s + n - 1) / n in
  let m := (s + bs - 1) / bs in
  n = Z.min (cap_by_pixels (resolve_nthreads attr T) roi) s /\
  1 <= n <= s /\ 1 <= bs /\ 1 <= m <= n /\
  events r = map (band_event ax roi bs n) (counter_values m) ++ [JoinAll].
Proof.
  intros Hfit Hcap r ax s n bs m.
  destruct (parallel_image_split attr roi T d Hfit Hcap)
    as (Hrun & Hn & Hbs & Hcov & Hup).
  cbn zeta in Hrun, Hn, Hbs, Hcov, Hup. fold r ax in Hrun, Hn, Hbs, Hcov, Hup.
  fold (axis_extent ax roi) in Hrun, Hn, Hbs, Hcov, Hup. fold s in Hrun, Hn, Hbs, Hcov, Hup.
  assert (En : n = Z.min (cap_by_pixels (resolve_nthreads attr T) roi) s)
    by (unfold n; rewrite Hrun; reflexivity).
  rewrite <- En in Hrun, Hn, Hbs, Hcov, Hup. fold bs in Hrun, Hbs, Hcov, Hup.
  destruct (block_count_bounds s bs ltac:(lia) Hbs) as (Hm1 & Hm2 & Hm3).
  fold m in Hm1, Hm2, Hm3.
  pose proof (roi_fits_axis roi ax Hfit) as (H1 & H2 & H3 & H4).
  unfold s, axis_extent in *.
  repeat split; try lia; try nia.
  rewrite Hrun. cbn [events]. f_equal.
  unfold counter_values.
  pose proof (band_loop_exact ax roi bs n m) as He.
  specialize (He H1 Hbs ltac:(lia) Hcov ltac:(unfold INT_MAX in *; nia)
                 ltac:(unfold INT_MAX in *; nia) Hm2 Hm3
                 (Z.to_nat n) 0 roi ltac:(lia) ltac:(lia)
                 ltac:(reflexivity)).
  rewrite Z.sub_0_r in He. exact He.
Qed.

(** The whole run of [parallel_image] once more than one thread survives
    the cap by pixels.  With [s] the extent of the split axis, [n] the
    final thread count and [bs = ceil (s / n)] the block size, the loop
    hands out the bands of the counter values [0 .. m-1], where
    [m = ceil (s / bs)] is at most [n]: a band goes to a new thread when
    its counter value is below [n - 1] and is run by the caller
    otherwise; then the threads are joined. *)
Theorem parallel_image_events (attr T : Z) (roi : ROI) (d : SplitDir) :
  roi_fits roi ->
  1 < cap_by_pixels (resolve_nthreads attr T) roi ->
  let r := parallel_image attr roi T d in
  let ax := resolve_splitdir roi d in
  let s := axis_extent ax roi in
  let n := nthreads_used r in
  let bs := (s + n - 1) / n in
  let m := (s + bs - 1) / bs in
  n = Z.min (cap_by_pixels (resolve_nthreads attr T) roi) s /\
  1 <= n <= s /\ 1 <= bs /\ 1 <= m <= n /\
  events r = map (band_event ax roi bs n) (counter_values m) ++ [JoinAll].
Proof. exact (parallel_image_run_exact attr T roi d). Qed.

Lemma parallel_image_events_witness :
  events (parallel_image 8 roi_5rows 4 Split_Y) =
  [Spawn (nth_band Split_Y roi_5rows 2 0);
   Spawn (nth_band Split_Y roi_5rows 2 1);
   Spawn (nth_band Split_Y roi_5rows 2 2); JoinAll].
Proof.
  destruct (parallel_image_events 8 4 roi_5rows Split_Y) as (_ & _ & _ & _ & He).
  - unfold roi_fits, axis_fits, INT_MIN, INT_MAX; simpl; lia.
  - vm_compute. reflexivity.
  - exact He.
Defined.

End ParallelImageEvents.

Section ParallelImageBands.

Import Int.

Lemma counter_values_In (n k : Z) : In k (counter_values n) -> 0 <= k < n.
Proof.
  unfold counter_values. rewrite in_map_iff. intros (j & <- & Hj).
  apply in_seq in Hj. lia.
Qed.

Lemma counter_values_length (n : Z) :
  List.length (counter_values n) = Z.to_nat n.
Proof. unfold counter_values. now rewrite length_map, length_seq. Qed.

Lemma counter_values_succ (n : Z) :
  0 <= n -> counter_values (n + 1) = counter_values n ++ [n].
Proof.
  intros Hn. unfold counter_values.
  replace (Z.to_nat (n + 1)) with (S (Z.to_nat n)) by lia.
  rewrite seq_S, map_app. cbn [map Nat.add]. now rewrite Z2Nat.id by lia.
Qed.

Lemma counter_values_nth (n : Z) (f : Z -> ROI) (k : nat) (b : ROI) :
  nth_error (map f (counter_values n)) k = Some b ->
  b = f (Z.of_nat k) /\ (k < Z.to_nat n)%nat.
Proof.
  intros Hk.
  assert (Hlt : (k < Z.to_nat n)%nat).
  { rewrite <- (counter_values_length n), <- (length_map f).
    apply nth_error_Some. congruence. }
  split; [|exact Hlt].
  unfold counter_values in Hk.
  rewrite map_map in Hk.
  rewrite (nth_error_map (fun j => f (Z.of_nat j))) in Hk.
  rewrite nth_error_seq in Hk.
  destruct (Nat.ltb_spec k (Z.to_nat n)) as [_ | Hge]; [|lia].
  cbn in Hk. congruence.
Qed.

Lemma invocations_band_events (d : SplitDir) (r : ROI) (bs n : Z) (l : list Z) :
  invocations (map (band_event d r bs n) l ++ [JoinAll]) =
  map (nth_band d r bs) l.
Proof.
  unfold invocations. rewrite flat_map_app. cbn [flat_map]. rewrite app_nil_r.
  induction l as [|k l IH]; [reflexivity|].
  cbn [map flat_map]. rewrite IH. unfold band_event.
  destruct (k <? n - 1); reflexivity.
Qed.

Lemma called_app (l1 l2 : list event) :
  called (l1 ++ l2) = called l1 ++ called l2.
Proof. apply flat_map_app. Qed.

Lemma spawned_app (l1 l2 : list event) :
  spawned (l1 ++ l2) = spawned l1 ++ spawned l2.
Proof. apply flat_map_app. Qed.

Lemma band_events_below (d : SplitDir) (r : ROI) (bs n : Z) (l : list Z) :
  (forall k, In k l -> k < n - 1) ->
  called (map (band_event d r bs n) l) = [] /\
  spawned (map (band_event d r bs n) l) = map (nth_band d r bs) l.
Proof.
  induction l as [|k l IH]; intros Hl; [split; reflexivity|].
  destruct (IH (fun j Hj => Hl j (or_intror Hj))) as [IHc IHs].
  pose proof (Hl k (or_introl eq_refl)) as Hk.
  unfold called, spawned in *. cbn [map flat_map]. rewrite IHc, IHs.
  unfold band_event. destruct (Z.ltb_spec k (n - 1)); [|lia].
  split; reflexivity.
Qed.

(** Where the bands lie and how long they are: band [k] starts [k] blocks
    after the begin of the split axis; no band is empty or longer than a
    block, and every band but the last is exactly one block long. *)
Theorem parallel_image_band_sizes (attr T : Z) (roi : ROI) (d : SplitDir) :
  roi_fits roi ->
  1 < cap_by_pixels (resolve_nthreads attr T) roi ->
  let r := parallel_image attr roi T d in
  let ax := resolve_splitdir roi d in
  let bs := (axis_extent ax roi + nthreads_used r - 1) / nthreads_used r in
  let bands := invocations (events r) in
  forall k band, nth_error bands k = Some band ->
    axis_begin ax band = axis_begin ax roi + Z.of_nat k * bs /\
    1 <= axis_extent ax band <= bs /\
    ((S k < List.length bands)%nat -> axis_extent ax band = bs).
Proof.
  intros Hfit Hcap r ax bs bands k band Hk.
  destruct (parallel_image_run_exact attr T roi d Hfit Hcap)
    as (_ & Hn & Hbs & Hm & He).
  fold r ax in Hn, Hbs, Hm, He. fold bs in Hbs, Hm, He.
  set (s := axis_extent ax roi) in *. set (n := nthreads_used r) in *.
  set (m := (s + bs - 1) / bs) in *.
  destruct (block_count_bounds s bs ltac:(lia) Hbs) as (_ & Hm2 & Hm3).
  fold m in Hm2, Hm3.
  assert (Hbands : bands = map (nth_band ax roi bs) (counter_values m)).
  { unfold bands. rewrite He. apply invocations_band_events. }
  assert (Hlen : List.length bands = Z.to_nat m)
    by (rewrite Hbands, length_map; apply counter_values_length).
  rewrite Hbands in Hk. apply counter_values_nth in Hk. destruct Hk as [-> Hk].
  unfold nth_band, axis_extent. rewrite axis_begin_set_axis, axis_end_set_axis.
  unfold s, axis_extent in *.
  repeat split; nia.
Qed.

Lemma parallel_image_band_sizes_witness :
  nth_error (invocations (events (parallel_image 8 roi_5rows 4 Split_Y))) 2
    = Some (mkROI 0 16384 4 5 0 1 0 4) /\
  axis_begin Split_Y (mkROI 0 16384 4 5 0 1 0 4) = 0 + 2 * 2 /\
  1 <= axis_extent Split_Y (mkROI 0 16384 4 5 0 1 0 4) <= 2.
Proof.
  assert (Hfit : roi_fits roi_5rows)
    by (unfold roi_fits, axis_fits, INT_MIN, INT_MAX; simpl; lia).
  assert (Hcap : 1 < cap_by_pixels (resolve_nthreads 8 4) roi_5rows)
    by (vm_compute; reflexivity).
  destruct (parallel_image_band_sizes 8 4 roi_5rows Split_Y Hfit Hcap
              2%nat (mkROI 0 16384 4 5 0 1 0 4) eq_refl)
    as (Hb & Hsz & _).
  split; [reflexivity|]. split; [exact Hb | exact Hsz].
Defined.

(** How many bands there are: [ceil (s / bs)] for the extent [s] and the
    block size [bs]; never more than the thread count [n] and always more
    than half of it; exactly [n], each of [s / n], when [n] divides
    [s]. *)
Theorem parallel_image_band_count (attr T : Z) (roi : ROI) (d : SplitDir) :
  roi_fits roi ->
  1 < cap_by_pixels (resolve_nthreads attr T) roi ->
  let r := parallel_image attr roi T d in
  let s := axis_extent (resolve_splitdir roi d) roi in
  let n := nthreads_used r in
  let bs := (s + n - 1) / n in
  let count := Z.of_nat (List.length (invocations (events r))) in
  count = (s + bs - 1) / bs /\
  count <= n < 2 * count /\
  (s mod n = 0 -> count = n /\ bs = s / n).
Proof.
  intros Hfit Hcap r s n bs count.
  destruct (parallel_image_run_exact attr T roi d Hfit Hcap)
    as (_ & Hn & Hbs & Hm & He).
  destruct (parallel_image_split attr roi T d Hfit Hcap)
    as (Hrun & _ & _ & Hcov & Hup).
  cbn zeta in Hrun, Hcov, Hup.
  fold r in Hn, Hbs, Hm, He, Hrun.
  fold (axis_extent (resolve_splitdir roi d) roi) in Hrun, Hcov, Hup.
  fold s in Hn, Hbs, Hm, He, Hrun, Hcov, Hup. fold n in Hn, Hbs, Hm, He.
  fold bs in Hbs, Hm, He.
  assert (En : n = Z.min (cap_by_pixels (resolve_nthreads attr T) roi) s)
    by (unfold n; rewrite Hrun; reflexivity).
  rewrite <- En in Hcov, Hup. fold bs in Hcov, Hup.
  set (m := (s + bs - 1) / bs) in *.
  destruct (block_count_bounds s bs ltac:(lia) Hbs) as (_ & Hm2 & Hm3).
  fold m in Hm2, Hm3.
  assert (Hcount : count = m).
  { unfold count. rewrite He, invocations_band_events, length_map,
      counter_values_length. lia. }
  rewrite Hcount. split; [reflexivity|]. split; [nia|].
  intros Hdiv.
  assert (Hs : s = n * (s / n)).
  { rewrite (Z.div_mod s n) at 1 by lia. lia. }
  assert (Hq : bs = s / n) by nia.
  split; [nia | exact Hq].
Qed.

Lemma parallel_image_band_count_witness :
  List.length (invocations (events (parallel_image 8 roi_1024 8 Split_Y))) = 8%nat /\
  List.length (invocations (events (parallel_image 8 roi_5rows 4 Split_Y))) = 3%nat.
Proof.
  split.
  - destruct (parallel_image_band_count 8 8 roi_1024 Split_Y) as (_ & _ & Hdiv).
    + unfold roi_fits, axis_fits, INT_MIN, INT_MAX; simpl; lia.
    + vm_compute. reflexivity.
    + destruct (Hdiv eq_refl) as [Hc _]. apply Nat2Z.inj. exact Hc.
  - destruct (parallel_image_band_count 8 4 roi_5rows Split_Y) as (Hc & _).
    + unfold roi_fits, axis_fits, INT_MIN, INT_MAX; simpl; lia.
    + vm_compute. reflexivity.
    + apply Nat2Z.inj. exact Hc.
Defined.

(** Which band the caller runs: the calling thread runs a band only when
    the loop reaches the last counter value [n - 1], that is when [n - 1]
    blocks do not cover the axis; it is then the last band.  All other
    bands go to new threads. *)
Theorem parallel_image_caller_band (attr T : Z) (roi : ROI) (d : SplitDir) :
  roi_fits roi ->
  1 < cap_by_pixels (resolve_nthreads attr T) roi ->
  let r := parallel_image attr roi T d in
  let ax := resolve_splitdir roi d in
  let s := axis_extent ax roi in
  let n := nthreads_used r in
  let bs := (s + n - 1) / n in
  called (events r) =
    (if (n - 1) * bs <? s then [nth_band ax roi bs (n - 1)] else []) /\
  spawned (events r) =
    map (nth_band ax roi bs) (counter_values (Z.min ((s + bs - 1) / bs) (n - 1))).
Proof.
  intros Hfit Hcap r ax s n bs.
  destruct (parallel_image_run_exact attr T roi d Hfit Hcap)
    as (_ & Hn & Hbs & Hm & He).
  fold r ax in Hn, Hbs, Hm, He. fold s in Hn, Hbs, Hm, He.
  fold n in Hn, Hbs, Hm, He. fold bs in Hbs, Hm, He.
  set (m := (s + bs - 1) / bs) in *.
  destruct (block_count_bounds s bs ltac:(lia) Hbs) as (_ & Hm2 & Hm3).
  fold m in Hm2, Hm3.
  rewrite He, called_app, spawned_app, !app_nil_r.
  destruct (Z.eq_dec m n) as [Hmn | Hmn].
  - rewrite Hmn in *. replace (Z.min n (n - 1)) with (n - 1) by lia.
    assert (Hcv : counter_values n = counter_values (n - 1) ++ [n - 1]).
    { rewrite <- counter_values_succ by lia. f_equal. lia. }
    rewrite Hcv, map_app, called_app, spawned_app.
    destruct (band_events_below ax roi bs n (counter_values (n - 1))) as [-> ->].
    { intros k Hk. apply counter_values_In in Hk. lia. }
    cbn [map]. unfold band_event.
    destruct (Z.ltb_spec (n - 1) (n - 1)); [lia|].
    destruct (Z.ltb_spec ((n - 1) * bs) s); [|lia].
    cbn. rewrite app_nil_r. split; reflexivity.
  - replace (Z.min m (n - 1)) with m by lia.
    destruct (band_events_below ax roi bs n (counter_values m)) as [-> ->].
    { intros k Hk. apply counter_values_In in Hk. lia. }
    destruct (Z.ltb_spec ((n - 1) * bs) s); [nia|]. split; reflexivity.
Qed.

Lemma parallel_image_caller_band_witness :
  called (events (parallel_image 8 roi_1024 8 Split_Y)) =
    [mkROI 0 1024 896 1024 0 1 0 4] /\
  called (events (parallel_image 8 roi_5rows 4 Split_Y)) = [].
Proof.
  split.
  - destruct (parallel_image_caller_band 8 8 roi_1024 Split_Y) as (Hc & _).
    + unfold roi_fits, axis_fits, INT_MIN, INT_MAX; simpl; lia.
    + vm_compute. reflexivity.
    + exact Hc.
  - destruct (parallel_image_caller_band 8 4 roi_5rows Split_Y) as (Hc & _).
    + unfold roi_fits, axis_fits, INT_MIN, INT_MAX; simpl; lia.
    + vm_compute. reflexivity.
    + exact Hc.
Defined.

End ParallelImageBands.

Section ParallelImageEdges.

Import Int.

Lemma band_loop_length (d : SplitDir) (b0 e0 bs n : Z) (idx : list Z) :
  forall roi,
    (List.length (invocations (band_loop d b0 e0 bs n idx roi))
     <= List.length idx)%nat.
Proof.
  induction idx as [|i idx IH]; intros roi; simpl; [lia|].
  destruct (next_band d b0 e0 bs i roi) as [roi'|]; simpl; [|lia].
  specialize (IH roi').
  destruct (i <? sub n 1); simpl; unfold invocations in *; lia.
Qed.

Lemma invocations_join (l : list event) :
  invocations (l ++ [JoinAll]) = invocations l.
Proof.
  unfold invocations. rewrite flat_map_app. cbn [flat_map]. apply app_nil_r.
Qed.

(** Whatever the region and the arguments, [parallel_image] ends with a
    thread count no larger than the one asked for (or the "threads"
    attribute when none is), and applies the callable at most that many
    times, or once. *)
Theorem parallel_image_within_request (attr T : Z) (roi : ROI) (d : SplitDir) :
  let r := parallel_image attr roi T d in
  nthreads_used r <= resolve_nthreads attr T /\
  Z.of_nat (List.length (invocations (events r))) <= Z.max 1 (nthreads_used r).
Proof.
  unfold parallel_image.
  destruct (Z.leb_spec (cap_by_pixels (resolve_nthreads attr T) roi) 1) as [Hle|Hgt];
    cbn [nthreads_used events].
  - unfold cap_by_pixels in *. cbn. lia.
  - split; [unfold cap_by_pixels; lia|].
    rewrite invocations_join.
    match goal with
    | |- context [band_loop ?a ?b ?c ?e ?f (counter_values ?g) ?h] =>
        pose proof (band_loop_length a b c e f (counter_values g) h) as Hlen;
        rewrite counter_values_length in Hlen
    end.
    lia.
Qed.

(** When the cap by pixels leaves more than one thread and the extent of
    the split axis is not positive, the loop has no counter value to
    visit: the callable is never applied, and the function only joins
    its empty thread group.  A region with begin > end on the split axis
    can get there, for instance one whose bounds are the wrong way round
    on two axes, so that its extents still multiply to a positive pixel
    count. *)
Theorem parallel_image_inverted_region (attr T : Z) (roi : ROI) (d : SplitDir) :
  1 < cap_by_pixels (resolve_nthreads attr T) roi ->
  in_range (axis_extent (resolve_splitdir roi d) roi) ->
  axis_extent (resolve_splitdir roi d) roi <= 0 ->
  events (parallel_image attr roi T d) = [JoinAll] /\
  nthreads_used (parallel_image attr roi T d) <= 0.
Proof.
  intros Hcap Hr Hext. unfold parallel_image.
  destruct (Z.leb_spec (cap_by_pixels (resolve_nthreads attr T) roi) 1); [lia|].
  cbn [events nthreads_used].
  destruct (roi_begin_axis roi _ (resolve_splitdir_axis roi d)) as [-> ->].
  unfold axis_extent in *.
  rewrite (sub_id (axis_end (resolve_splitdir roi d) roi)
                  (axis_begin (resolve_splitdir roi d) roi)) by assumption.
  set (n := Z.min _ _). assert (Hn : n <= 0) by (unfold n; lia).
  split; [|exact Hn].
  unfold counter_values. replace (Z.to_nat n) with 0%nat by lia. reflexivity.
Qed.

Lemma parallel_image_inverted_region_witness :
  npixels roi_inverted = 40000 /\
  events (parallel_image 8 roi_inverted 4 Split_Y) = [JoinAll].
Proof.
  split; [reflexivity|].
  destruct (parallel_image_inverted_region 8 4 roi_inverted Split_Y) as (He & _).
  - vm_compute. reflexivity.
  - vm_compute. split; discriminate.
  - vm_compute. discriminate.
  - exact He.
Defined.

Lemma parallel_image_threads_witness :
  (List.length (spawned (events (parallel_image 8 roi_1024 8 Split_Y))) <= 7)%nat.
Proof.
  destruct (parallel_image_threads 8 8 roi_1024 Split_Y) as (Hs & _).
  - unfold roi_fits, axis_fits, INT_MIN, INT_MAX; simpl; lia.
  - vm_compute. reflexivity.
  - exact Hs.
Defined.

Lemma parallel_image_one_band_witness :
  events (parallel_image 8 (mkROI 0 100000 0 1 0 1 0 4) 4 Split_Y) =
  [Call (mkROI 0 100000 0 1 0 1 0 4); JoinAll].
Proof.
  apply (parallel_image_one_band 8 4 (mkROI 0 100000 0 1 0 1 0 4) Split_Y).
  - unfold roi_fits, axis_fits, INT_MIN, INT_MAX; simpl; lia.
  - vm_compute. reflexivity.
  - reflexivity.
Defined.

End ParallelImageEdges.

(** ** Common-type dispatch in closed form *)

Section DispatchForms.

Import Dispatch.

Context {IB : Type} `{ImageBufOps IB}.
Variable type_text : TypeDesc -> string.

Lemma dispatched_ctype_common (t : TypeDesc) :
  common_ctype (dispatched_ctype t) = true.
Proof. unfold dispatched_ctype. destruct (basetype t); reflexivity. Qed.

Lemma common_types_form (name : string) (f : func1) (t : TypeDesc) (R : IB) :
  OIIO_DISPATCH_COMMON_TYPES name f t R =
  if is_common (basetype t) then f (dispatched_ctype t) R
  else let run := f c_float (float_temporary R) in
       (fst run, if fst run then ib_copy R (snd run) None
                 else ib_error R (ib_geterror (snd run))).
Proof.
  unfold OIIO_DISPATCH_COMMON_TYPES, dispatched_ctype.
  destruct (basetype t); cbn [is_common existsb BASETYPE_eqb orb];
    try reflexivity;
    cbn zeta; destruct (f c_float (float_temporary R)) as [[] Rtmp]; reflexivity.
Qed.

Lemma common_types2_help_form (name : string) (f : func2A) (TR : ctype)
    (At : TypeDesc) (R A : IB) :
  OIIO_DISPATCH_COMMON_TYPES2_HELP name f TR At R A =
  f TR (dispatched_ctype At) R (dispatched_input At A).
Proof.
  unfold OIIO_DISPATCH_COMMON_TYPES2_HELP, dispatched_ctype, dispatched_input.
  destruct (basetype At); reflexivity.
Qed.

Lemma common_types2_form (name : string) (f : func2A) (Rt At : TypeDesc)
    (R A : IB) :
  OIIO_DISPATCH_COMMON_TYPES2 name f Rt At R A =
  if is_common (basetype Rt)
  then f (dispatched_ctype Rt) (dispatched_ctype At) R (dispatched_input At A)
  else let run := f c_float (dispatched_ctype At) (float_temporary R)
                    (dispatched_input At A) in
       (fst run, if fst run then ib_copy R (snd run) None
                 else ib_error R (ib_geterror (snd run))).
Proof.
  destruct Rt as [bt].
  assert (E : dispatched_ctype (mkTypeDesc bt) =
              match bt with
              | UINT8 => c_uchar | HALF => c_half | UINT16 => c_ushort
              | _ => c_float
              end) by reflexivity.
  rewrite E. unfold OIIO_DISPATCH_COMMON_TYPES2. cbn [basetype].
  destruct bt; rewrite !common_types2_help_form; try reflexivity;
    cbn zeta;
    destruct (f c_float (dispatched_ctype At) (float_temporary R)
                (dispatched_input At A)) as [[] Rtmp]; reflexivity.
Qed.

Lemma common_types3_help2_form (name : string) (f : func3) (Rt : TypeDesc)
    (TA TB : ctype) (R A B : IB) :
  OIIO_DISPATCH_COMMON_TYPES3_HELP2 name f Rt TA TB R A B =
  if is_common (basetype Rt) then f (dispatched_ctype Rt) TA TB R A B
  else let run := f c_float TA TB R A B in
       (fst run, if fst run then ib_copy (snd run) (float_temporary R) None
                 else ib_error (snd run) (ib_geterror (float_temporary R))).
Proof.
  unfold OIIO_DISPATCH_COMMON_TYPES3_HELP2, dispatched_ctype.
  destruct (basetype Rt); cbn [is_common existsb BASETYPE_eqb orb];
    try reflexivity;
    cbn zeta; destruct (f c_float TA TB R A B) as [[] R1]; reflexivity.
Qed.

Lemma common_types3_form (name : string) (f : func3) (Rt At Bt : TypeDesc)
    (R A B : IB) :
  OIIO_DISPATCH_COMMON_TYPES3 name f Rt At Bt R A B =
  OIIO_DISPATCH_COMMON_TYPES3_HELP2 name f Rt
    (dispatched_ctype At) (dispatched_ctype Bt)
    R (dispatched_input At A) (dispatched_input Bt B).
Proof.
  assert (Hhelp : forall TA A',
             OIIO_DISPATCH_COMMON_TYPES3_HELP name f Rt TA Bt R A' B =
             OIIO_DISPATCH_COMMON_TYPES3_HELP2 name f Rt TA (dispatched_ctype Bt)
               R A' (dispatched_input Bt B)).
  { intros TA A'.
    unfold OIIO_DISPATCH_COMMON_TYPES3_HELP, dispatched_ctype, dispatched_input.
    destruct (basetype Bt); reflexivity. }
  unfold OIIO_DISPATCH_COMMON_TYPES3. unfold dispatched_ctype at 1.
  unfold dispatched_input at 1.
  destruct (basetype At); rewrite Hhelp; reflexivity.
Qed.

(** The nested switches of the two- and three-type macros are a cross
    product: each input is looked at on its own, is passed as it is when
    its tag is one of the four common ones and as a float copy
    otherwise, and the specialization is instantiated at the
    corresponding component types.  With a common result type the
    specialization is called on the destination itself and its outcome
    is the macro's. *)
Theorem common_dispatch_cross_product (name : string) (f2 : func2A) (f3 : func3)
    (Rt At Bt : TypeDesc) (R A B : IB) :
  is_common (basetype Rt) = true ->
  OIIO_DISPATCH_COMMON_TYPES2 name f2 Rt At R A =
    f2 (dispatched_ctype Rt) (dispatched_ctype At) R (dispatched_input At A) /\
  OIIO_DISPATCH_COMMON_TYPES3 name f3 Rt At Bt R A B =
    f3 (dispatched_ctype Rt) (dispatched_ctype At) (dispatched_ctype Bt)
       R (dispatched_input At A) (dispatched_input Bt B).
Proof.
  intros HR. split.
  - rewrite common_types2_form, HR. reflexivity.
  - rewrite common_types3_form, common_types3_help2_form, HR. reflexivity.
Qed.

(** Common-type dispatch only ever instantiates the operation at [float],
    [unsigned char], [half] and [unsigned short]: two operations that
    agree at these component types are dispatched alike, whatever the
    tags. *)
Theorem common_dispatch_uses_common_ctypes (name : string)
    (f1 g1 : func1) (f2 g2 : func2A) (f3 g3 : func3)
    (Rt At Bt : TypeDesc) (R A B : IB) :
  (forall T R', common_ctype T = true -> f1 T R' = g1 T R') ->
  (forall TR TA R' A',
      common_ctype TR = true -> common_ctype TA = true ->
      f2 TR TA R' A' = g2 TR TA R' A') ->
  (forall TR TA TB R' A' B',
      common_ctype TR = true -> common_ctype TA = true ->
      common_ctype TB = true ->
      f3 TR TA TB R' A' B' = g3 TR TA TB R' A' B') ->
  OIIO_DISPATCH_COMMON_TYPES name f1 Rt R =
    OIIO_DISPATCH_COMMON_TYPES name g1 Rt R /\
  OIIO_DISPATCH_COMMON_TYPES2 name f2 Rt At R A =
    OIIO_DISPATCH_COMMON_TYPES2 name g2 Rt At R A /\
  OIIO_DISPATCH_COMMON_TYPES3 name f3 Rt At Bt R A B =
    OIIO_DISPATCH_COMMON_TYPES3 name g3 Rt At Bt R A B.
Proof.
  intros H1 H2 H3.
  pose proof (dispatched_ctype_common Rt) as HcR.
  pose proof (dispatched_ctype_common At) as HcA.
  pose proof (dispatched_ctype_common Bt) as HcB.
  split; [|split].
  - rewrite !common_types_form. cbn zeta.
    rewrite (H1 _ R HcR), (H1 c_float (float_temporary R) eq_refl). reflexivity.
  - rewrite !common_types2_form. cbn zeta.
    rewrite (H2 _ _ R (dispatched_input At A) HcR HcA).
    rewrite (H2 c_float _ (float_temporary R) (dispatched_input At A) eq_refl HcA).
    reflexivity.
  - rewrite !common_types3_form, !common_types3_help2_form. cbn zeta.
    rewrite (H3 _ _ _ R (dispatched_input At A) (dispatched_input Bt B) HcR HcA HcB).
    rewrite (H3 c_float _ _ R (dispatched_input At A) (dispatched_input Bt B)
               eq_refl HcA HcB).
    reflexivity.
Qed.

(** Common-type dispatch has no failure of its own: when the operation
    succeeds wherever it is called, the one-, two- and three-type macros
    succeed for every tag, supported or not.  Exhaustive dispatch of the
    same operation succeeds exactly on the nine supported tags. *)
Theorem dispatch_success (name : string) (f1 : func1) (f2 : func2A) (f3 : func3)
    (Rt At Bt : TypeDesc) (R A B : IB) :
  (forall T R', fst (f1 T R') = true) ->
  (forall TR TA R' A', fst (f2 TR TA R' A') = true) ->
  (forall TR TA TB R' A' B', fst (f3 TR TA TB R' A' B') = true) ->
  fst (OIIO_DISPATCH_COMMON_TYPES name f1 Rt R) = true /\
  fst (OIIO_DISPATCH_COMMON_TYPES2 name f2 Rt At R A) = true /\
  fst (OIIO_DISPATCH_COMMON_TYPES3 name f3 Rt At Bt R A B) = true /\
  fst (OIIO_DISPATCH_TYPES type_text name f1 Rt R) = is_supported (basetype Rt).
Proof.
  intros H1 H2 H3. split; [|split; [|split]].
  - rewrite common_types_form. destruct (is_common (basetype Rt)); cbn; apply H1.
  - rewrite common_types2_form. destruct (is_common (basetype Rt)); cbn; apply H2.
  - rewrite common_types3_form, common_types3_help2_form.
    destruct (is_common (basetype Rt)); cbn; apply H3.
  - unfold OIIO_DISPATCH_TYPES.
    destruct (basetype Rt); cbn [is_supported existsb BASETYPE_eqb orb supported_types];
      try apply H1; reflexivity.
Qed.

(** On the four common tags the two dispatch policies are the same macro:
    common-type dispatch and exhaustive dispatch call the same
    specialization on the same destination. *)
Theorem dispatch_policies_agree (name : string) (f1 : func1) (f2 : func2A)
    (Rt At : TypeDesc) (R A : IB) :
  is_common (basetype Rt) = true ->
  is_common (basetype At) = true ->
  OIIO_DISPATCH_COMMON_TYPES name f1 Rt R =
    OIIO_DISPATCH_TYPES type_text name f1 Rt R /\
  OIIO_DISPATCH_COMMON_TYPES2 name f2 Rt At R A =
    OIIO_DISPATCH_TYPES2 type_text name (fun TR TA R' => f2 TR TA R' A) Rt At R.
Proof.
  intros HR HA. split.
  - unfold OIIO_DISPATCH_COMMON_TYPES, OIIO_DISPATCH_TYPES.
    destruct (basetype Rt); try discriminate HR; reflexivity.
  - unfold OIIO_DISPATCH_COMMON_TYPES2, OIIO_DISPATCH_TYPES2,
      OIIO_DISPATCH_COMMON_TYPES2_HELP, OIIO_DISPATCH_TYPES2_HELP.
    destruct (basetype Rt); try discriminate HR;
      destruct (basetype At); try discriminate HA; reflexivity.
Qed.

End DispatchForms.

Section DispatchFormsExamples.

Import Dispatch.

Lemma common_dispatch_cross_product_witness :
  OIIO_DISPATCH_COMMON_TYPES3 "add" func_add
    (mkTypeDesc FLOAT) (mkTypeDesc DOUBLE) (mkTypeDesc UINT8)
    (buf FLOAT [0; 0]) (buf DOUBLE [1; 2]) (buf UINT8 [10; 20])
  = func_add c_float c_float c_uchar
      (buf FLOAT [0; 0]) (buf FLOAT [1; 2]) (buf UINT8 [10; 20]).
Proof.
  destruct (common_dispatch_cross_product (H := ImageBuf_ops) "add"
              func_copy func_add
              (mkTypeDesc FLOAT) (mkTypeDesc DOUBLE) (mkTypeDesc UINT8)
              (buf FLOAT [0; 0]) (buf DOUBLE [1; 2]) (buf UINT8 [10; 20])
              eq_refl) as (_ & H3).
  exact H3.
Defined.

Lemma common_dispatch_uses_common_ctypes_witness :
  OIIO_DISPATCH_COMMON_TYPES3 "add" func_add_common
    (mkTypeDesc INT16) (mkTypeDesc DOUBLE) (mkTypeDesc UINT8)
    (buf INT16 [0; 0]) (buf DOUBLE [1; 2]) (buf UINT8 [10; 20])
  = OIIO_DISPATCH_COMMON_TYPES3 "add" func_add
    (mkTypeDesc INT16) (mkTypeDesc DOUBLE) (mkTypeDesc UINT8)
    (buf INT16 [0; 0]) (buf DOUBLE [1; 2]) (buf UINT8 [10; 20]).
Proof.
  destruct (common_dispatch_uses_common_ctypes (H := ImageBuf_ops) "add"
              func_fill_common func_fill func_copy_common func_copy
              func_add_common func_add
              (mkTypeDesc INT16) (mkTypeDesc DOUBLE) (mkTypeDesc UINT8)
              (buf INT16 [0; 0]) (buf DOUBLE [1; 2]) (buf UINT8 [10; 20]))
    as (_ & _ & H3).
  - intros T R' HT. unfold func_fill_common. rewrite HT. reflexivity.
  - intros TR TA R' A' HR HA. unfold func_copy_common. rewrite HR, HA. reflexivity.
  - intros TR TA TB R' A' B' HR HA HB. unfold func_add_common.
    rewrite HR, HA, HB. reflexivity.
  - exact H3.
Defined.

Lemma dispatch_success_witness :
  fst (OIIO_DISPATCH_COMMON_TYPES "fill" func_fill (mkTypeDesc UINT64)
         (buf UINT64 [1; 2])) = true /\
  fst (OIIO_DISPATCH_TYPES c_str "fill" func_fill (mkTypeDesc UINT64)
         (buf UINT64 [1; 2])) = false.
Proof.
  destruct (dispatch_success (H := ImageBuf_ops) c_str "fill"
              func_fill func_copy func_add
              (mkTypeDesc UINT64) (mkTypeDesc FLOAT) (mkTypeDesc FLOAT)
              (buf UINT64 [1; 2]) (buf FLOAT [1; 2]) (buf FLOAT [1; 2])
              (fun _ _ => eq_refl) (fun _ _ _ _ => eq_refl)
              (fun _ _ _ _ _ _ => eq_refl)) as (H1 & _ & _ & H4).
  split; [exact H1 | exact H4].
Defined.

Lemma dispatch_policies_agree_witness :
  OIIO_DISPATCH_COMMON_TYPES2 "copy" func_copy
    (mkTypeDesc UINT16) (mkTypeDesc HALF) (buf UINT16 [0; 0]) (buf HALF [1; 2])
  = OIIO_DISPATCH_TYPES2 c_str "copy"
      (fun TR TA R' => func_copy TR TA R' (buf HALF [1; 2]))
      (mkTypeDesc UINT16) (mkTypeDesc HALF) (buf UINT16 [0; 0]).
Proof.
  destruct (dispatch_policies_agree (H := ImageBuf_ops) c_str "copy"
              func_fill func_copy (mkTypeDesc UINT16) (mkTypeDesc HALF)
              (buf UINT16 [0; 0]) (buf HALF [1; 2]) eq_refl eq_refl)
    as (_ & H2).
  exact H2.
Defined.

End DispatchFormsExamples.

(** ** The preparation flags *)

Section PrepFlags.

Import Prep.

Lemma flag_bits_disjoint (f g : Z) :
  In f IBAprep_flag_bits -> In g IBAprep_flag_bits ->
  (Z.land g f <> 0 <-> g = f).
Proof.
  unfold IBAprep_flag_bits. cbn [In]. intros Hf Hg.
  repeat (destruct Hf as [<- | Hf]; [|]); try contradiction;
    repeat (destruct Hg as [<- | Hg]; [|]); try contradiction;
    vm_compute; split; intros Hx; try reflexivity; try discriminate;
    try (exfalso; apply Hx; reflexivity).
Qed.

(** The flags of [IBAprep_flags] are distinct single bits: a combination
    of flags by bitwise or contains a flag exactly when that flag was
    among the ones combined, and [IBAprep_DEFAULT] contains none. *)
Theorem IBAprep_flags_combine (flags : list Z) (f : Z) :
  (forall g, In g flags -> In g IBAprep_flag_bits) ->
  In f IBAprep_flag_bits ->
  (Z.land (combine_flags flags) f <> 0 <-> In f flags) /\
  Z.land IBAprep_DEFAULT f = 0.
Proof.
  intros Hflags Hf. split; [|reflexivity].
  induction flags as [|g flags IH].
  - cbn. split; [intros Hx; apply Hx; reflexivity | contradiction].
  - cbn [combine_flags fold_right In].
    fold (combine_flags flags).
    rewrite Z.land_lor_distr_l, Z.lor_eq_0_iff.
    specialize (IH (fun h Hh => Hflags h (or_intror Hh))).
    pose proof (flag_bits_disjoint f g Hf (Hflags g (or_introl eq_refl))) as Hd.
    destruct (Z.eq_dec (Z.land g f) 0) as [E0 | E0];
      destruct (Z.eq_dec (Z.land (combine_flags flags) f) 0) as [E1 | E1];
      tauto.
Qed.

Lemma IBAprep_flags_combine_witness :
  Z.land (Z.lor IBAprep_REQUIRE_ALPHA (Z.lor IBAprep_NO_COPY_METADATA 0))
         IBAprep_REQUIRE_Z = 0.
Proof.
  destruct (IBAprep_flags_combine
              [IBAprep_REQUIRE_ALPHA; IBAprep_NO_COPY_METADATA] IBAprep_REQUIRE_Z)
    as ((Hin & _) & _).
  - intros g [<- | [<- | []]]; cbn; tauto.
  - cbn; tauto.
  - destruct (Z.eq_dec (Z.land (combine_flags
        [IBAprep_REQUIRE_ALPHA; IBAprep_NO_COPY_METADATA]) IBAprep_REQUIRE_Z) 0)
      as [E | E]; [exact E|].
    exfalso. destruct (Hin E) as [Hx | [Hx | []]]; discriminate Hx.
Defined.

End PrepFlags.
